(** * Window: a GLFW window wrapper with polled keyboard and mouse state

    Shallow embedding of [Code/Window.h].  The header declares the class
    [Window]: the fields, the five inline member functions
    ([getBufferWidth], [getBufferHeight], [getShouldClose], [getKeys],
    [SwapBuffers]) and the signatures of the out-of-line ones.  The bodies of
    the out-of-line member functions live in a translation unit that is not
    part of the fragment; they are modelled from the specification and marked
    as such.

    The C++ object store is a finite map from addresses to [Window] records,
    the windowing library is a finite map from native handles to native
    windows, and every member function is a computation in a state-and-failure
    monad over the pair of both; failure stands for undefined behaviour
    (dereferencing a dead object, handing a dead handle to the library, an
    out-of-bounds array write). *)

From Stdlib Require Import ZArith Bool List Lia.
From Stdlib Require Import Floats.SpecFloat.
From stdpp Require Import base option list gmap.

Open Scope Z_scope.

(** ** Scalar types of the header *)

Module GL.

(** [GLint] is a 32-bit signed integer; the class only stores and converts
    such values, it never does arithmetic on them. *)
Definition GLint := Z.

(** [GLfloat] is IEEE-754 binary32, [double] is binary64; both are values of
    the standard library's executable float specification. *)
Definition prec32 : Z := 24.
Definition emax32 : Z := 128.
Definition GLfloat := spec_float.
Definition double := spec_float.

Definition fzero : GLfloat := S754_zero false.
Definition fadd (x y : GLfloat) : GLfloat := SFadd prec32 emax32 x y.
Definition fsub (x y : GLfloat) : GLfloat := SFsub prec32 emax32 x y.

(** Implicit conversion [GLint -> GLfloat] (round to nearest, ties to
    even), as performed by [return bufferWidth;] in a function returning
    [GLfloat]. *)
Definition GLfloat_of_GLint (n : GLint) : GLfloat :=
  binary_normalize prec32 emax32 n 0 false.

(** Implicit conversion [double -> GLfloat], as performed when a [double]
    argument is stored into a [GLfloat] field. *)
Definition GLfloat_of_double (d : double) : GLfloat :=
  match d with
  | S754_finite s m e => binary_round prec32 emax32 s m e
  | _ => d
  end.

(** The integer a float denotes, when it denotes one. *)
Definition GLfloat_to_Z (f : GLfloat) : option Z :=
  match f with
  | S754_zero _ => Some 0
  | S754_finite s m e =>
      if 0 <=? e then Some (cond_Zopp s (Zpos m * 2 ^ e))
      else if Zpos m mod 2 ^ (- e) =? 0
           then Some (cond_Zopp s (Zpos m / 2 ^ (- e)))
           else None
  | _ => None
  end.

(** Conversion [int -> bool] of C++: non-zero is [true]. *)
Definition bool_of_int (n : Z) : bool := negb (n =? 0).

End GL.

Import GL.

(** ** The windowing library (GLFW), as far as the class uses it

    The library is an external collaborator.  Its state is a table of native
    windows; a [GLFWwindow*] is [None] for the null pointer and [Some h] for
    the address of a native window.  Calls that the library documents as
    requiring a valid window fail on a null or dead handle. *)

Module GLFW.

Definition GLFW_FALSE : Z := 0.
Definition GLFW_TRUE : Z := 1.
Definition GLFW_RELEASE : Z := 0.
Definition GLFW_PRESS : Z := 1.
Definition GLFW_REPEAT : Z := 2.
Definition GLFW_CURSOR : Z := 0x33001.
Definition GLFW_CURSOR_NORMAL : Z := 0x34001.
Definition GLFW_CURSOR_DISABLED : Z := 0x34003.

Definition GLFWwindow_ptr := option positive.

Record window := mk_window {
  shouldClose : Z;                  (* the close-request flag, an int *)
  fbWidth : Z;
  fbHeight : Z;
  userPointer : option positive;    (* address of a C++ object, or null *)
  keyCallback : bool;               (* Window::handleKeys installed *)
  cursorPosCallback : bool;         (* Window::handleMouse installed *)
  cursorMode : Z;
  frames : N                        (* number of buffer swaps so far *)
}.

(** What the host machine gives: whether a window with a rendering context
    can be created at all, and the framebuffer size it reports for a window
    of a requested size. *)
Record host := mk_host {
  context_available : bool;
  framebuffer_for : Z -> Z -> Z * Z
}.

Record t := mk {
  env : host;
  windows : gmap positive window;
  current : option positive         (* window whose context is current *)
}.

Definition with_windows (f : gmap positive window -> gmap positive window)
    (g : t) : t :=
  mk (env g) (f (windows g)) (current g).

Definition lookup_ptr (p : GLFWwindow_ptr) (g : t) : option (positive * window) :=
  match p with
  | Some h => match windows g !! h with
              | Some nw => Some (h, nw)
              | None => None
              end
  | None => None
  end.

Definition update_ptr (p : GLFWwindow_ptr) (f : window -> window) (g : t)
    : option t :=
  match lookup_ptr p g with
  | Some (h, nw) => Some (with_windows <[h := f nw]> g)
  | None => None
  end.

Definition new_window (fb : Z * Z) : window :=
  mk_window GLFW_FALSE (fst fb) (snd fb) None false false GLFW_CURSOR_NORMAL 0%N.

(** [glfwCreateWindow]: a fresh handle, or null when the host cannot give
    a window and context. *)
Definition glfwCreateWindow (width height : Z) (g : t) : GLFWwindow_ptr * t :=
  if context_available (env g) then
    let h := fresh (dom (windows g)) in
    (Some h,
     with_windows <[h := new_window (framebuffer_for (env g) width height)]> g)
  else (None, g).

Definition glfwGetFramebufferSize (p : GLFWwindow_ptr) (g : t) : option (Z * Z) :=
  match lookup_ptr p g with
  | Some (_, nw) => Some (fbWidth nw, fbHeight nw)
  | None => None
  end.

Definition glfwMakeContextCurrent (p : GLFWwindow_ptr) (g : t) : option t :=
  match lookup_ptr p g with
  | Some (h, _) => Some (mk (env g) (windows g) (Some h))
  | None => None
  end.

Definition set_keyCallback (b : bool) (nw : window) : window :=
  mk_window (shouldClose nw) (fbWidth nw) (fbHeight nw) (userPointer nw)
            b (cursorPosCallback nw) (cursorMode nw) (frames nw).
Definition set_cursorPosCallback (b : bool) (nw : window) : window :=
  mk_window (shouldClose nw) (fbWidth nw) (fbHeight nw) (userPointer nw)
            (keyCallback nw) b (cursorMode nw) (frames nw).
Definition set_cursorMode (v : Z) (nw : window) : window :=
  mk_window (shouldClose nw) (fbWidth nw) (fbHeight nw) (userPointer nw)
            (keyCallback nw) (cursorPosCallback nw) v (frames nw).
Definition set_userPointer (u : option positive) (nw : window) : window :=
  mk_window (shouldClose nw) (fbWidth nw) (fbHeight nw) u
            (keyCallback nw) (cursorPosCallback nw) (cursorMode nw) (frames nw).
Definition set_shouldClose (v : Z) (nw : window) : window :=
  mk_window v (fbWidth nw) (fbHeight nw) (userPointer nw)
            (keyCallback nw) (cursorPosCallback nw) (cursorMode nw) (frames nw).
Definition bump_frames (nw : window) : window :=
  mk_window (shouldClose nw) (fbWidth nw) (fbHeight nw) (userPointer nw)
            (keyCallback nw) (cursorPosCallback nw) (cursorMode nw)
            (N.succ (frames nw)).

Definition glfwSetKeyCallback (p : GLFWwindow_ptr) (installed : bool) :=
  update_ptr p (set_keyCallback installed).
Definition glfwSetCursorPosCallback (p : GLFWwindow_ptr) (installed : bool) :=
  update_ptr p (set_cursorPosCallback installed).
Definition glfwSetInputMode (p : GLFWwindow_ptr) (mode value : Z) (g : t)
    : option t :=
  if mode =? GLFW_CURSOR then update_ptr p (set_cursorMode value) g
  else update_ptr p (fun nw => nw) g.
Definition glfwSetWindowUserPointer (p : GLFWwindow_ptr) (u : option positive) :=
  update_ptr p (set_userPointer u).
Definition glfwGetWindowUserPointer (p : GLFWwindow_ptr) (g : t)
    : option (option positive) :=
  match lookup_ptr p g with
  | Some (_, nw) => Some (userPointer nw)
  | None => None
  end.

(** [glfwWindowShouldClose] returns the flag as an [int]. *)
Definition glfwWindowShouldClose (p : GLFWwindow_ptr) (g : t) : option Z :=
  match lookup_ptr p g with
  | Some (_, nw) => Some (shouldClose nw)
  | None => None
  end.

Definition glfwSwapBuffers (p : GLFWwindow_ptr) := update_ptr p bump_frames.

(** [glfwDestroyWindow]: a null pointer is accepted and ignored. *)
Definition glfwDestroyWindow (p : GLFWwindow_ptr) (g : t) : option t :=
  match p with
  | None => Some g
  | Some h =>
      match windows g !! h with
      | Some _ =>
          Some (mk (env g) (delete h (windows g))
                   (if decide (current g = Some h) then None else current g))
      | None => None
      end
  end.

(** The user (or the window manager) asks to close the window. *)
Definition close_request (h : positive) (g : t) : t :=
  match windows g !! h with
  | Some nw => with_windows <[h := set_shouldClose GLFW_TRUE nw]> g
  | None => g
  end.

Definition init (e : host) : t := mk e ∅ None.

End GLFW.

Import GLFW.

(** ** The class

    Fields in the order of the header. *)

Definition KEYS_CAPACITY : Z := 1024.

Record Window := mk_Window {
  mainWindow : GLFWwindow_ptr;
  width : GLint;
  height : GLint;
  bufferWidth : GLint;
  bufferHeight : GLint;
  keys : list bool;                   (* bool keys[1024] *)
  lastX : GLfloat;
  lastY : GLfloat;
  xChange : GLfloat;
  yChange : GLfloat;
  mouseFirstMoved : bool
}.

(** A raw C array write: outside the bounds of the array it is undefined. *)
Definition array_store {A} (a : list A) (i : Z) (v : A) : option (list A) :=
  if decide (0 <= i < Z.of_nat (length a)) then Some (<[Z.to_nat i := v]> a)
  else None.

Definition array_load {A} (a : list A) (i : Z) : option A :=
  if decide (0 <= i) then a !! Z.to_nat i else None.

(** ** Program state and the monad of member functions *)

Record world := mk_world {
  heap : gmap positive Window;        (* live C++ objects, by address *)
  glfw : GLFW.t
}.

Definition M (A : Type) : Type := world -> option (A * world).

Definition ret {A} (a : A) : M A := fun s => Some (a, s).
Definition bind {A B} (m : M A) (k : A -> M B) : M B :=
  fun s => match m s with
           | Some (a, s') => k a s'
           | None => None
           end.
Definition undefined {A} : M A := fun _ => None.

Notation "'let*' x ':=' m 'in' k" := (bind m (fun x => k))
  (at level 10, x name, m at level 100, k at level 200).

(** Dereference [this]. *)
Definition load (this : positive) : M Window :=
  fun s => match heap s !! this with
           | Some w => Some (w, s)
           | None => None
           end.

(** Assign through [this]. *)
Definition store (this : positive) (w : Window) : M unit :=
  fun s => match heap s !! this with
           | Some _ => Some (tt, mk_world (<[this := w]> (heap s)) (glfw s))
           | None => None
           end.

(** A library call that reads the native state. *)
Definition native_get {A} (f : GLFW.t -> option A) : M A :=
  fun s => match f (glfw s) with
           | Some a => Some (a, s)
           | None => None
           end.

(** A library call that changes the native state. *)
Definition native_do (f : GLFW.t -> option GLFW.t) : M unit :=
  fun s => match f (glfw s) with
           | Some g => Some (tt, mk_world (heap s) g)
           | None => None
           end.

(** [delete this] after the destructor body has run. *)
Definition free (this : positive) : M unit :=
  fun s => match heap s !! this with
           | Some _ => Some (tt, mk_world (delete this (heap s)) (glfw s))
           | None => None
           end.

(** [new Window(...)]: the object is placed at an unused address. *)
Definition new (w : Window) : M positive :=
  fun s => let this := fresh (dom (heap s)) in
           Some (this, mk_world (<[this := w]> (heap s)) (glfw s)).

(** Field assignments. *)
Definition set_mainWindow (p : GLFWwindow_ptr) (w : Window) : Window :=
  mk_Window p (width w) (height w) (bufferWidth w) (bufferHeight w) (keys w)
            (lastX w) (lastY w) (xChange w) (yChange w) (mouseFirstMoved w).
Definition set_buffer (fb : GLint * GLint) (w : Window) : Window :=
  mk_Window (mainWindow w) (width w) (height w) (fst fb) (snd fb) (keys w)
            (lastX w) (lastY w) (xChange w) (yChange w) (mouseFirstMoved w).
Definition set_keys (ks : list bool) (w : Window) : Window :=
  mk_Window (mainWindow w) (width w) (height w) (bufferWidth w) (bufferHeight w)
            ks (lastX w) (lastY w) (xChange w) (yChange w) (mouseFirstMoved w).
Definition set_xChange (v : GLfloat) (w : Window) : Window :=
  mk_Window (mainWindow w) (width w) (height w) (bufferWidth w) (bufferHeight w)
            (keys w) (lastX w) (lastY w) v (yChange w) (mouseFirstMoved w).
Definition set_yChange (v : GLfloat) (w : Window) : Window :=
  mk_Window (mainWindow w) (width w) (height w) (bufferWidth w) (bufferHeight w)
            (keys w) (lastX w) (lastY w) (xChange w) v (mouseFirstMoved w).
Definition set_mouse (lx ly xc yc : GLfloat) (first : bool) (w : Window) : Window :=
  mk_Window (mainWindow w) (width w) (height w) (bufferWidth w) (bufferHeight w)
            (keys w) lx ly xc yc first.

(** Status code of [Initialise] (an [int] in the header; the specification
    names the failure [InitFailure]). *)
Inductive status := InitSuccess | InitFailure.

(** What the memory of a new object holds in the fields no constructor
    assigns. *)
Record indeterminate := mk_indeterminate {
  junk_bufferWidth : GLint;
  junk_bufferHeight : GLint;
  junk_lastX : GLfloat;
  junk_lastY : GLfloat
}.

Section Class.

(** The default dimensions of [Window()] are fixed by the absent
    translation unit; they are parameters here. *)
Variables default_width default_height : GLint.

(** *** Member functions defined in the header *)

(** [GLfloat getBufferWidth() { return bufferWidth; }] *)
Definition getBufferWidth (this : positive) : M GLfloat :=
  let* w := load this in
  ret (GLfloat_of_GLint (bufferWidth w)).

(** [GLfloat getBufferHeight() { return bufferHeight; }] *)
Definition getBufferHeight (this : positive) : M GLfloat :=
  let* w := load this in
  ret (GLfloat_of_GLint (bufferHeight w)).

(** [bool getShouldClose() { return glfwWindowShouldClose(mainWindow); }] *)
Definition getShouldClose (this : positive) : M bool :=
  let* w := load this in
  let* r := native_get (glfwWindowShouldClose (mainWindow w)) in
  ret (bool_of_int r).

(** [bool* getKeys() { return keys; }]: a pointer to the array inside the
    object; it is represented by the address of the object, through which
    the array is reached. *)
Definition getKeys (this : positive) : M positive :=
  let* w := load this in
  ret this.

(** [void SwapBuffers() { glfwSwapBuffers(mainWindow); }] *)
Definition SwapBuffers (this : positive) : M unit :=
  let* w := load this in
  native_do (glfwSwapBuffers (mainWindow w)).

(** *** Member functions declared in the header, defined elsewhere *)

(** Modelled from the spec: the body of the constructors [Window()] and
    [Window(GLint, GLint)] is missing.  They store the requested dimensions
    and do not touch the windowing system; the handle is null, no key is
    down, the accumulators are zero and the first-movement flag is set.  The
    framebuffer size and the last cursor position are not assigned and hold
    whatever the memory held. *)
Definition Window_fields (windowWidth windowHeight : GLint)
    (junk : indeterminate) : Window :=
  mk_Window None windowWidth windowHeight
            (junk_bufferWidth junk) (junk_bufferHeight junk)
            (replicate (Z.to_nat KEYS_CAPACITY) false)
            (junk_lastX junk) (junk_lastY junk) fzero fzero true.

(** Modelled from the spec: the body of [Window(GLint, GLint)] is missing;
    [new Window(windowWidth, windowHeight)] allocates the object and stores
    the requested dimensions. *)
Definition Window_new (windowWidth windowHeight : GLint)
    (junk : indeterminate) : M positive :=
  new (Window_fields windowWidth windowHeight junk).

(** Modelled from the spec: the body of [Window()] is missing;
    [new Window()] allocates the object with the default dimensions. *)
Definition Window_new_default (junk : indeterminate) : M positive :=
  new (Window_fields default_width default_height junk).

(** Modelled from the spec: the body of [createCallbacks() const] is
    missing.  It registers the key and cursor-position callbacks on the
    native window. *)
Definition createCallbacks (this : positive) : M unit :=
  let* w := load this in
  let* _ := native_do (glfwSetKeyCallback (mainWindow w) true) in
  native_do (glfwSetCursorPosCallback (mainWindow w) true).

(** Modelled from the spec: the body of [Initialise()] is missing.  It
    creates the native window and context, installs the callbacks, queries
    and stores the framebuffer size and sets the input-capture mode; it
    reports [InitFailure] when the window cannot be created. *)
Definition Initialise (this : positive) : M status :=
  let* w := load this in
  let* p := (fun s =>
               let '(p, g) := glfwCreateWindow (width w) (height w) (glfw s) in
               Some (p, mk_world (heap s) g)) in
  let* _ := store this (set_mainWindow p w) in
  match p with
  | None => ret InitFailure
  | Some _ =>
      let* fb := native_get (glfwGetFramebufferSize p) in
      let* _ := store this (set_buffer fb (set_mainWindow p w)) in
      let* _ := native_do (glfwMakeContextCurrent p) in
      let* _ := createCallbacks this in
      let* _ := native_do (glfwSetInputMode p GLFW_CURSOR GLFW_CURSOR_DISABLED) in
      let* _ := native_do (glfwSetWindowUserPointer p (Some this)) in
      ret InitSuccess
  end.

(** Modelled from the spec: the body of [~Window()] is missing.  It
    releases the native handle; the object's storage ends with it. *)
Definition Window_delete (this : positive) : M unit :=
  let* w := load this in
  let* _ := native_do (glfwDestroyWindow (mainWindow w)) in
  free this.

(** Modelled from the spec: the body of [getXChange()] is missing.  It
    returns the accumulated horizontal delta and resets the accumulator to
    zero. *)
Definition getXChange (this : positive) : M GLfloat :=
  let* w := load this in
  let theChange := xChange w in
  let* _ := store this (set_xChange fzero w) in
  ret theChange.

(** Modelled from the spec: the body of [getYChange()] is missing.  It
    returns the accumulated vertical delta and resets the accumulator to
    zero. *)
Definition getYChange (this : positive) : M GLfloat :=
  let* w := load this in
  let theChange := yChange w in
  let* _ := store this (set_yChange fzero w) in
  ret theChange.

(** Modelled from the spec: the body of the static callback [handleKeys]
    is missing.  It finds the object through the user pointer of the native
    window and, for a key code inside the array, sets the slot on a press
    and clears it on a release; other codes and actions are dropped. *)
Definition handleKeys (window : GLFWwindow_ptr) (key code action mode : Z)
    : M unit :=
  let* u := native_get (glfwGetWindowUserPointer window) in
  match u with
  | None => undefined
  | Some theWindow =>
      let* w := load theWindow in
      if decide (0 <= key < KEYS_CAPACITY) then
        if action =? GLFW_PRESS then
          match array_store (keys w) key true with
          | Some ks => store theWindow (set_keys ks w)
          | None => undefined
          end
        else if action =? GLFW_RELEASE then
          match array_store (keys w) key false with
          | Some ks => store theWindow (set_keys ks w)
          | None => undefined
          end
        else ret tt
      else ret tt
  end.

(** Modelled from the spec: the body of the static callback [handleMouse]
    is missing.  The first invocation records the position as the baseline;
    later ones add the delta from the stored position to the accumulators
    and store the new position. *)
Definition handleMouse (window : GLFWwindow_ptr) (xPos yPos : double)
    : M unit :=
  let* u := native_get (glfwGetWindowUserPointer window) in
  match u with
  | None => undefined
  | Some theWindow =>
      let* w := load theWindow in
      let x := GLfloat_of_double xPos in
      let y := GLfloat_of_double yPos in
      if mouseFirstMoved w then
        store theWindow (set_mouse x y (xChange w) (yChange w) false w)
      else
        store theWindow
              (set_mouse x y
                         (fadd (xChange w) (fsub x (lastX w)))
                         (fadd (yChange w) (fsub y (lastY w)))
                         false w)
  end.

(** *** The event pump and the traces of a program *)

Inductive event :=
| KeyEvent (key code action mode : Z)
| CursorPosEvent (xPos yPos : double)
| CloseEvent.

(** The library delivers an event to a native window: key and cursor
    events go to the installed callback, a close request sets the flag. *)
Definition deliver (h : positive) (e : event) : M unit :=
  fun s =>
    match windows (glfw s) !! h with
    | None => Some (tt, s)
    | Some nw =>
        match e with
        | KeyEvent key code action mode =>
            if keyCallback nw then handleKeys (Some h) key code action mode s
            else Some (tt, s)
        | CursorPosEvent xPos yPos =>
            if cursorPosCallback nw then handleMouse (Some h) xPos yPos s
            else Some (tt, s)
        | CloseEvent => Some (tt, mk_world (heap s) (close_request h (glfw s)))
        end
    end.

Inductive method :=
| m_Initialise
| m_getBufferWidth
| m_getBufferHeight
| m_getXChange
| m_getYChange
| m_getShouldClose
| m_getKeys
| m_SwapBuffers
| m_delete.

Inductive action :=
| New (windowWidth windowHeight : GLint) (junk : indeterminate)
| NewDefault (junk : indeterminate)
| Call (this : positive) (m : method)
| Deliver (h : positive) (e : event).

Inductive value :=
| VUnit
| VPtr (p : positive)
| VStatus (st : status)
| VFloat (f : GLfloat)
| VBool (b : bool).

Definition fmapM {A B} (f : A -> B) (m : M A) : M B :=
  let* a := m in ret (f a).

Definition call (this : positive) (m : method) : M value :=
  match m with
  | m_Initialise => fmapM VStatus (Initialise this)
  | m_getBufferWidth => fmapM VFloat (getBufferWidth this)
  | m_getBufferHeight => fmapM VFloat (getBufferHeight this)
  | m_getXChange => fmapM VFloat (getXChange this)
  | m_getYChange => fmapM VFloat (getYChange this)
  | m_getShouldClose => fmapM VBool (getShouldClose this)
  | m_getKeys => fmapM VPtr (getKeys this)
  | m_SwapBuffers => fmapM (fun _ => VUnit) (SwapBuffers this)
  | m_delete => fmapM (fun _ => VUnit) (Window_delete this)
  end.

Definition exec (a : action) : M value :=
  match a with
  | New windowWidth windowHeight junk =>
      fmapM VPtr (Window_new windowWidth windowHeight junk)
  | NewDefault junk => fmapM VPtr (Window_new_default junk)
  | Call this m => call this m
  | Deliver h e => fmapM (fun _ => VUnit) (deliver h e)
  end.

Fixpoint run (tr : list action) (s : world) : option world :=
  match tr with
  | [] => Some s
  | a :: tr' =>
      match exec a s with
      | Some (_, s') => run tr' s'
      | None => None
      end
  end.

Definition start (e : host) : world := mk_world ∅ (GLFW.init e).

Definition reachable (s : world) : Prop :=
  exists e tr, run tr (start e) = Some s.

End Class.

(** ** Classification of the operations *)

(** Methods whose body only reads the object or passes the stored handle
    on to the library. *)
Definition read_only (m : method) : bool :=
  match m with
  | m_getShouldClose | m_SwapBuffers | m_getBufferWidth | m_getBufferHeight
  | m_getKeys => true
  | _ => false
  end.

(** The operations the class documents as changing the object store: the
    constructors, [Initialise], the destructor, the two read-and-clear
    accessors and the two callbacks. *)
Definition mutator (a : action) : bool :=
  match a with
  | New _ _ _ | NewDefault _ => true
  | Call _ m => negb (read_only m)
  | Deliver _ (KeyEvent _ _ _ _) | Deliver _ (CursorPosEvent _ _) => true
  | Deliver _ CloseEvent => false
  end.


(** ** The state right after a successful [Initialise]

    The fields of the object and the native window it owns, once
    [Initialise] has run to its end on a host that gives a window. *)

Definition initialised_fields (e : host) (h : positive) (w : Window) : Window :=
  set_buffer (framebuffer_for e (width w) (height w)) (set_mainWindow (Some h) w).

Definition initialised_window (e : host) (this : positive) (w : Window) : window :=
  mk_window GLFW_FALSE
            (fst (framebuffer_for e (width w) (height w)))
            (snd (framebuffer_for e (width w) (height w)))
            (Some this) true true GLFW_CURSOR_DISABLED 0%N.

(** ** The step relation

    [step a s s']: the action [a] takes the program from [s] to [s'].  Each
    rule gives the new state in closed form; [exec] is shown below to follow
    these rules. *)

Definition callback_installed (e : event) (nw : window) : bool :=
  match e with
  | KeyEvent _ _ _ _ => keyCallback nw
  | CursorPosEvent _ _ => cursorPosCallback nw
  | CloseEvent => true
  end.

Definition pure_accessor (m : method) : bool :=
  match m with
  | m_getBufferWidth | m_getBufferHeight | m_getKeys => true
  | _ => false
  end.

(** The fields after the cursor callback has run with position
    [(xPos, yPos)]. *)
Definition mouse_moved (xPos yPos : double) (w : Window) : Window :=
  if mouseFirstMoved w then
    set_mouse (GLfloat_of_double xPos) (GLfloat_of_double yPos)
              (xChange w) (yChange w) false w
  else
    set_mouse (GLfloat_of_double xPos) (GLfloat_of_double yPos)
              (fadd (xChange w) (fsub (GLfloat_of_double xPos) (lastX w)))
              (fadd (yChange w) (fsub (GLfloat_of_double yPos) (lastY w)))
              false w.

Definition put (this : positive) (w : Window) (s : world) : world :=
  mk_world (<[this := w]> (heap s)) (glfw s).

Definition put_native (h : positive) (nw : window) (s : world) : world :=
  mk_world (heap s) (with_windows <[h := nw]> (glfw s)).

Section StepRelation.

Variables default_width default_height : GLint.

Inductive step : action -> world -> world -> Prop :=
| step_New s windowWidth windowHeight junk :
    step (New windowWidth windowHeight junk) s
         (put (fresh (dom (heap s))) (Window_fields windowWidth windowHeight junk) s)
| step_NewDefault s junk :
    step (NewDefault junk) s
         (put (fresh (dom (heap s)))
              (Window_fields default_width default_height junk) s)
| step_Initialise_failure s this w :
    heap s !! this = Some w ->
    context_available (env (glfw s)) = false ->
    step (Call this m_Initialise) s (put this (set_mainWindow None w) s)
| step_Initialise_success s this w :
    heap s !! this = Some w ->
    context_available (env (glfw s)) = true ->
    step (Call this m_Initialise) s
         (mk_world
            (<[this := initialised_fields (env (glfw s))
                         (fresh (dom (windows (glfw s)))) w]> (heap s))
            (GLFW.mk (env (glfw s))
               (<[fresh (dom (windows (glfw s))) :=
                    initialised_window (env (glfw s)) this w]> (windows (glfw s)))
               (Some (fresh (dom (windows (glfw s)))))))
| step_pure_accessor s this m w :
    heap s !! this = Some w ->
    pure_accessor m = true ->
    step (Call this m) s s
| step_getShouldClose s this w h nw :
    heap s !! this = Some w ->
    mainWindow w = Some h ->
    windows (glfw s) !! h = Some nw ->
    step (Call this m_getShouldClose) s s
| step_SwapBuffers s this w h nw :
    heap s !! this = Some w ->
    mainWindow w = Some h ->
    windows (glfw s) !! h = Some nw ->
    step (Call this m_SwapBuffers) s (put_native h (bump_frames nw) s)
| step_getXChange s this w :
    heap s !! this = Some w ->
    step (Call this m_getXChange) s (put this (set_xChange fzero w) s)
| step_getYChange s this w :
    heap s !! this = Some w ->
    step (Call this m_getYChange) s (put this (set_yChange fzero w) s)
| step_delete_null s this w :
    heap s !! this = Some w ->
    mainWindow w = None ->
    step (Call this m_delete) s (mk_world (delete this (heap s)) (glfw s))
| step_delete s this w h nw :
    heap s !! this = Some w ->
    mainWindow w = Some h ->
    windows (glfw s) !! h = Some nw ->
    step (Call this m_delete) s
         (mk_world (delete this (heap s))
            (GLFW.mk (env (glfw s)) (delete h (windows (glfw s)))
               (if decide (current (glfw s) = Some h) then None
                else current (glfw s))))
| step_Deliver_no_window s h e :
    windows (glfw s) !! h = None ->
    step (Deliver h e) s s
| step_Deliver_no_callback s h nw e :
    windows (glfw s) !! h = Some nw ->
    callback_installed e nw = false ->
    step (Deliver h e) s s
| step_handleKeys_dropped s h nw this w key code action mode :
    windows (glfw s) !! h = Some nw ->
    keyCallback nw = true ->
    userPointer nw = Some this ->
    heap s !! this = Some w ->
    ~ (0 <= key < KEYS_CAPACITY) \/
      (action <> GLFW_PRESS /\ action <> GLFW_RELEASE) ->
    step (Deliver h (KeyEvent key code action mode)) s s
| step_handleKeys_stored s h nw this w key code action mode ks :
    windows (glfw s) !! h = Some nw ->
    keyCallback nw = true ->
    userPointer nw = Some this ->
    heap s !! this = Some w ->
    0 <= key < KEYS_CAPACITY ->
    action = GLFW_PRESS \/ action = GLFW_RELEASE ->
    array_store (keys w) key (action =? GLFW_PRESS) = Some ks ->
    step (Deliver h (KeyEvent key code action mode)) s
         (put this (set_keys ks w) s)
| step_handleMouse s h nw this w xPos yPos :
    windows (glfw s) !! h = Some nw ->
    cursorPosCallback nw = true ->
    userPointer nw = Some this ->
    heap s !! this = Some w ->
    step (Deliver h (CursorPosEvent xPos yPos)) s
         (put this (mouse_moved xPos yPos w) s)
| step_close_request s h nw :
    windows (glfw s) !! h = Some nw ->
    step (Deliver h CloseEvent) s
         (put_native h (set_shouldClose GLFW_TRUE nw) s).

End StepRelation.

(** ** Invariants *)

(** Every live object holds a key array of [KEYS_CAPACITY] slots. *)
Definition keys_ok (s : world) : Prop :=
  forall o w, heap s !! o = Some w -> Z.of_nat (length (keys w)) = KEYS_CAPACITY.

(** An object's handle, when not null, names a live native window whose user
    pointer leads back to the object. *)
Definition owned (s : world) : Prop :=
  forall o w h, heap s !! o = Some w -> mainWindow w = Some h ->
    exists nw, windows (glfw s) !! h = Some nw /\ userPointer nw = Some o.

(** The object at [this] owns the native window [h], and a close request
    is pending on it. *)
Definition close_pending (this h : positive) (s : world) : Prop :=
  exists w nw, heap s !! this = Some w /\ mainWindow w = Some h /\
               windows (glfw s) !! h = Some nw /\ shouldClose nw = GLFW_TRUE.

(** Actions after which the object at [this] still has the native window it
    had: everything but initialising it again or destroying it. *)
Definition keeps_window (this : positive) (a : action) : Prop :=
  a <> Call this m_Initialise /\ a <> Call this m_delete.

(** Actions that are not a cursor-position event. *)
Definition not_cursor_event (a : action) : Prop :=
  match a with
  | Deliver _ (CursorPosEvent _ _) => False
  | _ => True
  end.

Definition is_constructor (a : action) : bool :=
  match a with
  | New _ _ _ | NewDefault _ => true
  | _ => false
  end.

(** ** Mouse paths

    [accumulate acc last ps]: the accumulator and the stored position after
    the cursor has visited the coordinates [ps] in turn, starting from the
    accumulator [acc] and the stored position [last]. *)
Fixpoint accumulate (acc last : GLfloat) (ps : list GLfloat) : GLfloat * GLfloat :=
  match ps with
  | [] => (acc, last)
  | p :: ps' => accumulate (fadd acc (fsub p last)) p ps'
  end.

(** The cursor events that carry a list of positions to the window [h]. *)
Definition cursor_events (h : positive) (moves : list (double * double))
    : list action :=
  map (fun p => Deliver h (CursorPosEvent (fst p) (snd p))) moves.

Definition xs_of (moves : list (double * double)) : list GLfloat :=
  map (fun p => GLfloat_of_double (fst p)) moves.
Definition ys_of (moves : list (double * double)) : list GLfloat :=
  map (fun p => GLfloat_of_double (snd p)) moves.

(** The fields after the cursor callback has run for each position. *)
Definition track (moves : list (double * double)) (w : Window) : Window :=
  fold_left (fun w p => mouse_moved (fst p) (snd p) w) moves w.

(** ** Sample hosts and states *)

Definition sample_junk : indeterminate :=
  mk_indeterminate 7 9 S754_nan (S754_infinity true).

(** A host with a display that scales by two. *)
Definition hidpi_host : host := mk_host true (fun w h => (2 * w, 2 * h)).

(** A host without a usable graphics context. *)
Definition headless_host : host := mk_host false (fun w h => (w, h)).

(** A host whose framebuffer is [2 ^ 24 + 1] pixels wide. *)
Definition wide_host : host := mk_host true (fun _ h => (16777217, h)).

(** The state after [new Window(800, 600)] on a host. *)
Definition constructed (e : host) : world :=
  put 1%positive (Window_fields 800 600 sample_junk) (start e).

(** The state after a successful [Initialise] of that object. *)
Definition initialised (e : host) : world :=
  mk_world
    {[ 1%positive := initialised_fields e 1%positive (Window_fields 800 600 sample_junk) ]}
    (GLFW.mk e
       {[ 1%positive := initialised_window e 1%positive (Window_fields 800 600 sample_junk) ]}
       (Some 1%positive)).

(** An integer-valued [double]. *)
Definition double_of_Z (n : Z) : double := binary_normalize 53 1024 n 0 false.

(** The accumulators of the object at [this], if it lives, are cleared. *)
Definition x_cleared (this : positive) (s : world) : Prop :=
  forall w, heap s !! this = Some w -> xChange w = fzero.
Definition y_cleared (this : positive) (s : world) : Prop :=
  forall w, heap s !! this = Some w -> yChange w = fzero.

(** The initialised object after the cursor went from (100, 50) to
    (103, 40). *)
Definition dragged (e : host) : world :=
  put 1%positive
      (track [(double_of_Z 100, double_of_Z 50); (double_of_Z 103, double_of_Z 40)]
             (initialised_fields e 1%positive (Window_fields 800 600 sample_junk)))
      (initialised e).

(** ** Further operations and predicates *)


(** A call of one of the five methods defined in the header on [this]. *)
Definition polling (this : positive) (a : action) : Prop :=
  exists m, a = Call this m /\ read_only m = true.

(** The number of [SwapBuffers] calls in a trace. *)
Fixpoint count_swaps (tr : list action) : N :=
  match tr with
  | [] => 0%N
  | Call _ m_SwapBuffers :: tr' => N.succ (count_swaps tr')
  | _ :: tr' => count_swaps tr'
  end.

(** A native window after [k] more buffer swaps. *)
Definition add_frames (k : N) (nw : window) : window :=
  mk_window (shouldClose nw) (fbWidth nw) (fbHeight nw) (userPointer nw)
            (keyCallback nw) (cursorPosCallback nw) (cursorMode nw)
            (frames nw + k)%N.

(** The fields that only a constructor or [Initialise] assigns. *)
Definition same_window (w w' : Window) : Prop :=
  mainWindow w' = mainWindow w /\ width w' = width w /\ height w' = height w /\
  bufferWidth w' = bufferWidth w /\ bufferHeight w' = bufferHeight w.

(** The class declares no copy constructor, so the language supplies the
    implicit one, [Window(const Window&)], which copies every member;
    [new Window(other)] places the copy at an unused address. *)
Definition Window_copy (other : positive) : M positive :=
  let* w := load other in
  new w.

(** A few frames of a render loop, and a session with input. *)
Definition sample_polling : list action :=
  [Call 1%positive m_getShouldClose; Call 1%positive m_getKeys;
   Call 1%positive m_SwapBuffers; Call 1%positive m_getBufferWidth;
   Call 1%positive m_getShouldClose; Call 1%positive m_SwapBuffers].

Definition sample_session : list action :=
  [Deliver 1%positive (KeyEvent 65 38 GLFW_PRESS 0);
   Deliver 1%positive (CursorPosEvent (double_of_Z 100) (double_of_Z 50));
   Deliver 1%positive (CursorPosEvent (double_of_Z 103) (double_of_Z 40));
   Call 1%positive m_getXChange;
   Call 1%positive m_SwapBuffers;
   Deliver 1%positive CloseEvent].

(** * Properties *)

(** ** The conversion from [GLint] to [GLfloat]

    Integers of magnitude at most [2 ^ 24] fit the 24-bit significand of
    binary32, so their conversion loses nothing. *)

Lemma digits2_pos_size (p : positive) : digits2_pos p = Pos.size p.
Proof. induction p as [p IH|p IH|]; simpl; congruence. Qed.

Lemma digits2_pos_iter_xO (m k : positive) :
  digits2_pos (Pos.iter xO m k) = (digits2_pos m + k)%positive.
Proof.
  induction k as [|k IH] using Pos.peano_ind.
  - simpl. lia.
  - rewrite Pos.iter_succ. simpl. rewrite IH. lia.
Qed.

Lemma Zpos_iter_xO (m k : positive) :
  Zpos (Pos.iter xO m k) = Zpos m * 2 ^ Zpos k.
Proof.
  induction k as [|k IH] using Pos.peano_ind.
  - simpl. lia.
  - rewrite Pos.iter_succ, Pos2Z.inj_xO, IH, Pos2Z.inj_succ, Z.pow_succ_r by lia. lia.
Qed.

Lemma digits2_pos_bound (m : positive) (k : Z) :
  0 <= k -> Zpos m < 2 ^ k -> Zpos (digits2_pos m) <= k.
Proof.
  intros Hk Hm. rewrite digits2_pos_size.
  pose proof (Pos.size_le m) as Hle.
  destruct (Z_le_gt_dec (Zpos (Pos.size m)) k) as [|Hgt]; [assumption|exfalso].
  assert (H2 : 2 ^ (k + 1) <= 2 ^ Zpos (Pos.size m)) by (apply Z.pow_le_mono_r; lia).
  rewrite Z.pow_add_r in H2 by lia.
  assert (H3 : 2 ^ Zpos (Pos.size m) <= 2 * Zpos m).
  { change (2 * Zpos m) with (Zpos m~0). rewrite <- Pos2Z.inj_pow. apply Pos2Z.pos_le_pos. exact Hle. }
  lia.
Qed.

Lemma binary_round_aux_aligned (s : bool) (mz : positive) (ez : Z) :
  Zpos (digits2_pos mz) = prec32 -> -149 <= ez <= 104 ->
  binary_round_aux prec32 emax32 s (Zpos mz) ez loc_Exact = S754_finite s mz ez.
Proof.
  intros Hd He. unfold binary_round_aux, shr_fexp, fexp, emin. simpl Zdigits2.
  rewrite Hd. unfold prec32, emax32.
  replace (Z.max (24 + ez - 24) (3 - 128 - 24) - ez) with 0 by lia.
  simpl. rewrite Hd. unfold prec32.
  replace (Z.max (24 + ez - 24) (3 - 128 - 24) - ez) with 0 by lia.
  simpl. destruct (Z.leb_spec ez (128 - 24)); [reflexivity|lia].
Qed.

Lemma fexp32_small (d : Z) : 0 < d <= 24 -> fexp prec32 emax32 d = d - 24.
Proof. intros Hd. unfold fexp, emin, prec32, emax32. lia. Qed.

Lemma binary_round_small (s : bool) (m : positive) :
  Zpos m < 2 ^ 24 ->
  GLfloat_to_Z (binary_round prec32 emax32 s m 0) = Some (cond_Zopp s (Zpos m)).
Proof.
  intros Hm.
  assert (Hd : Zpos (digits2_pos m) <= 24) by (apply digits2_pos_bound; lia).
  unfold binary_round, shl_align.
  rewrite Z.add_0_r, fexp32_small, Z.sub_0_r by lia.
  destruct (Zpos (digits2_pos m) - 24) as [|q|q] eqn:Hq; [| lia |].
  - rewrite binary_round_aux_aligned by (unfold prec32; lia).
    simpl. f_equal. f_equal. lia.
  - rewrite binary_round_aux_aligned.
    + unfold GLfloat_to_Z. simpl (0 <=? Z.neg q). simpl (- Z.neg q).
      rewrite Zpos_iter_xO.
      rewrite Z.mod_mul, Z.div_mul by (apply Z.pow_nonzero; lia).
      reflexivity.
    + rewrite digits2_pos_iter_xO. unfold prec32. lia.
    + lia.
Qed.

Lemma GLfloat_of_GLint_exact (n : GLint) :
  Z.abs n <= 2 ^ 24 -> GLfloat_to_Z (GLfloat_of_GLint n) = Some n.
Proof.
  intros Hn. unfold GLfloat_of_GLint.
  destruct (Z.eq_dec (Z.abs n) (2 ^ 24)) as [He|Hne].
  - destruct n as [|p|p]; simpl in He; try discriminate;
      injection He as ->; reflexivity.
  - destruct n as [|p|p]; simpl.
    + reflexivity.
    + rewrite binary_round_small by (simpl in *; lia). reflexivity.
    + rewrite binary_round_small by (simpl in *; lia). reflexivity.
Qed.

(** ** Equations of the monad *)

Lemma bind_Some {A B} (m : M A) (k : A -> M B) (s s' : world) (a : A) :
  m s = Some (a, s') -> bind m k s = k a s'.
Proof. intros H. unfold bind. rewrite H. reflexivity. Qed.

Lemma bind_inv {A B} (m : M A) (k : A -> M B) (s s2 : world) (b : B) :
  bind m k s = Some (b, s2) ->
  exists a s1, m s = Some (a, s1) /\ k a s1 = Some (b, s2).
Proof.
  unfold bind. destruct (m s) as [[a s1]|]; [|discriminate].
  intros H. exists a, s1. split; [reflexivity|exact H].
Qed.

Lemma load_Some (this : positive) (w : Window) (s : world) :
  heap s !! this = Some w -> load this s = Some (w, s).
Proof. intros H. unfold load. rewrite H. reflexivity. Qed.

Lemma load_inv (this : positive) (w : Window) (s s' : world) :
  load this s = Some (w, s') -> heap s !! this = Some w /\ s' = s.
Proof.
  unfold load. destruct (heap s !! this); [|discriminate].
  intros [= -> ->]. split; reflexivity.
Qed.

Lemma store_Some (this : positive) (w0 w : Window) (s : world) :
  heap s !! this = Some w0 ->
  store this w s = Some (tt, mk_world (<[this := w]> (heap s)) (glfw s)).
Proof. intros H. unfold store. rewrite H. reflexivity. Qed.

Lemma world_eta (s : world) : mk_world (heap s) (glfw s) = s.
Proof. destruct s; reflexivity. Qed.

(** ** Array accesses *)

Lemma array_store_Some_iff {A} (a : list A) (i : Z) (v : A) :
  is_Some (array_store a i v) <-> 0 <= i < Z.of_nat (length a).
Proof.
  unfold array_store. destruct (decide (0 <= i < Z.of_nat (length a))).
  - split; [intros _; assumption | intros _; eexists; reflexivity].
  - split; [intros [x Hx]; discriminate | intros; contradiction].
Qed.

Lemma array_store_length {A} (a a' : list A) (i : Z) (v : A) :
  array_store a i v = Some a' -> length a' = length a.
Proof.
  unfold array_store. destruct (decide _); [|discriminate].
  intros [= <-]. apply length_insert.
Qed.

Lemma array_load_store_eq {A} (a a' : list A) (i : Z) (v : A) :
  array_store a i v = Some a' -> array_load a' i = Some v.
Proof.
  unfold array_store, array_load. destruct (decide (0 <= i < _)) as [Hi|]; [|discriminate].
  intros [= <-]. destruct (decide (0 <= i)); [|lia].
  apply list_lookup_insert_eq. lia.
Qed.

Lemma array_load_store_ne {A} (a a' : list A) (i j : Z) (v : A) :
  array_store a i v = Some a' -> i <> j -> array_load a' j = array_load a j.
Proof.
  unfold array_store, array_load. destruct (decide (0 <= i < _)) as [Hi|]; [|discriminate].
  intros [= <-] Hne. destruct (decide (0 <= j)); [|reflexivity].
  apply list_lookup_insert_ne. lia.
Qed.

(** ** The accessors defined in the header *)

Lemma getBufferWidth_eq (s : world) (this : positive) (w : Window) :
  heap s !! this = Some w ->
  getBufferWidth this s = Some (GLfloat_of_GLint (bufferWidth w), s).
Proof.
  intros H. unfold getBufferWidth. rewrite (bind_Some _ _ _ _ _ (load_Some _ _ _ H)).
  reflexivity.
Qed.

Lemma getBufferHeight_eq (s : world) (this : positive) (w : Window) :
  heap s !! this = Some w ->
  getBufferHeight this s = Some (GLfloat_of_GLint (bufferHeight w), s).
Proof.
  intros H. unfold getBufferHeight. rewrite (bind_Some _ _ _ _ _ (load_Some _ _ _ H)).
  reflexivity.
Qed.

Lemma getShouldClose_eq (s : world) (this h : positive) (w : Window) (nw : window) :
  heap s !! this = Some w -> mainWindow w = Some h ->
  windows (glfw s) !! h = Some nw ->
  getShouldClose this s = Some (bool_of_int (shouldClose nw), s).
Proof.
  intros H Hh Hnw. unfold getShouldClose.
  rewrite (bind_Some _ _ _ _ _ (load_Some _ _ _ H)).
  unfold bind, native_get, glfwWindowShouldClose, lookup_ptr.
  rewrite Hh, Hnw. reflexivity.
Qed.

Lemma getShouldClose_inv (s s' : world) (this : positive) (b : bool) :
  getShouldClose this s = Some (b, s') ->
  s' = s /\ exists w h nw, heap s !! this = Some w /\ mainWindow w = Some h /\
                           windows (glfw s) !! h = Some nw /\
                           b = bool_of_int (shouldClose nw).
Proof.
  unfold getShouldClose. intros H.
  apply bind_inv in H as (w & s1 & Hl & H). apply load_inv in Hl as [Hw ->].
  unfold bind, native_get, glfwWindowShouldClose, lookup_ptr, ret in H.
  destruct (mainWindow w) as [h|] eqn:Hh; [|discriminate].
  destruct (windows (glfw s) !! h) as [nw|] eqn:Hnw; [|discriminate].
  injection H as <- <-. split; [reflexivity|]. exists w, h, nw. auto.
Qed.

Lemma SwapBuffers_inv (s s' : world) (this : positive) (u : unit) :
  SwapBuffers this s = Some (u, s') ->
  exists w g, heap s !! this = Some w /\
              glfwSwapBuffers (mainWindow w) (glfw s) = Some g /\
              s' = mk_world (heap s) g.
Proof.
  unfold SwapBuffers. intros H.
  apply bind_inv in H as (w & s1 & Hl & H). apply load_inv in Hl as [Hw ->].
  unfold native_do in H.
  destruct (glfwSwapBuffers (mainWindow w) (glfw s)) as [g|] eqn:Hg; [|discriminate].
  injection H as _ <-. exists w, g. auto.
Qed.

Lemma getKeys_inv (s s' : world) (this p : positive) :
  getKeys this s = Some (p, s') -> s' = s /\ p = this /\ is_Some (heap s !! this).
Proof.
  unfold getKeys. intros H.
  apply bind_inv in H as (w & s1 & Hl & H). apply load_inv in Hl as [Hw ->].
  injection H as <- <-. rewrite Hw. eauto.
Qed.

Lemma getBufferWidth_inv (s s' : world) (this : positive) (f : GLfloat) :
  getBufferWidth this s = Some (f, s') -> s' = s.
Proof.
  unfold getBufferWidth. intros H.
  apply bind_inv in H as (w & s1 & Hl & H). apply load_inv in Hl as [Hw ->].
  injection H as _ <-. reflexivity.
Qed.

Lemma getBufferHeight_inv (s s' : world) (this : positive) (f : GLfloat) :
  getBufferHeight this s = Some (f, s') -> s' = s.
Proof.
  unfold getBufferHeight. intros H.
  apply bind_inv in H as (w & s1 & Hl & H). apply load_inv in Hl as [Hw ->].
  injection H as _ <-. reflexivity.
Qed.

Lemma fmapM_inv {A B} (f : A -> B) (m : M A) (s s' : world) (b : B) :
  fmapM f m s = Some (b, s') -> exists a, m s = Some (a, s') /\ b = f a.
Proof.
  unfold fmapM. intros H. apply bind_inv in H as (a & s1 & Hm & H).
  injection H as <- <-. eauto.
Qed.

Lemma read_only_frame (s s' : world) (this : positive) (m : method) (v : value) :
  read_only m = true -> call this m s = Some (v, s') -> heap s' = heap s.
Proof.
  intros Hm H. destruct m; try discriminate Hm; simpl in H;
    apply fmapM_inv in H as (a & H & _).
  - apply getBufferWidth_inv in H as ->. reflexivity.
  - apply getBufferHeight_inv in H as ->. reflexivity.
  - apply getShouldClose_inv in H as [-> _]. reflexivity.
  - apply getKeys_inv in H as [-> _]. reflexivity.
  - apply SwapBuffers_inv in H as (w & g & _ & _ & ->). reflexivity.
Qed.

Section Frame.
Variables default_width default_height : GLint.
Local Abbreviation exec := (exec default_width default_height).

Lemma deliver_close_frame (s s' : world) (h : positive) (u : unit) :
  deliver h CloseEvent s = Some (u, s') -> heap s' = heap s.
Proof.
  unfold deliver. destruct (windows (glfw s) !! h); intros [= _ <-]; reflexivity.
Qed.

(** C10: [getShouldClose], [SwapBuffers], [getBufferWidth],
  [getBufferHeight] and [getKeys] leave every field of every [Window]
  object as it was: the first, the width and height accessors and
  [getKeys] leave the whole program state unchanged, and [SwapBuffers]
  changes only the library's state, through the stored handle.  Among all
  operations, one that changes the object store is a constructor,
  [Initialise], the destructor, [getXChange], [getYChange] or a key or
  cursor callback. *)
Theorem read_only_methods_frame (s : world) (this : positive) :
  (forall b s', getShouldClose this s = Some (b, s') -> s' = s) /\
  (forall f s', getBufferWidth this s = Some (f, s') -> s' = s) /\
  (forall f s', getBufferHeight this s = Some (f, s') -> s' = s) /\
  (forall p s', getKeys this s = Some (p, s') -> s' = s) /\
  (forall u s', SwapBuffers this s = Some (u, s') ->
     heap s' = heap s /\
     exists w, heap s !! this = Some w /\
               glfwSwapBuffers (mainWindow w) (glfw s) = Some (glfw s')) /\
  (forall a v s', exec a s = Some (v, s') -> heap s' <> heap s ->
     mutator a = true).
Proof.
  repeat split.
  - intros b s' H. apply getShouldClose_inv in H as [-> _]. reflexivity.
  - intros f s' H. apply getBufferWidth_inv in H. exact H.
  - intros f s' H. apply getBufferHeight_inv in H. exact H.
  - intros p s' H. apply getKeys_inv in H as [-> _]. reflexivity.
  - apply SwapBuffers_inv in H as (w & g & _ & _ & ->). reflexivity.
  - apply SwapBuffers_inv in H as (w & g & Hw & Hg & ->). exists w. auto.
  - intros a v s' H Hne. destruct a as [ww hh j|j|o m|h e]; try reflexivity.
    + simpl. destruct (read_only m) eqn:Hm; [|reflexivity].
      exfalso. apply Hne. apply (read_only_frame s s' o m v Hm H).
    + destruct e; try reflexivity. exfalso. apply Hne.
      simpl in H. apply fmapM_inv in H as (u & H & _).
      apply (deliver_close_frame _ _ _ _ H).
Qed.
End Frame.

(** C9: the framebuffer dimensions are stored as [GLint] and returned as
    [GLfloat]: for every live object each accessor returns the conversion of
    the stored integer to binary32 and changes nothing, and for a stored
    value of magnitude at most [2 ^ 24] the returned float denotes exactly
    that integer. *)
Theorem getBuffer_float_of_stored_int (s : world) (this : positive) (w : Window) :
  heap s !! this = Some w ->
  getBufferWidth this s = Some (GLfloat_of_GLint (bufferWidth w), s) /\
  getBufferHeight this s = Some (GLfloat_of_GLint (bufferHeight w), s) /\
  (Z.abs (bufferWidth w) <= 2 ^ 24 ->
   GLfloat_to_Z (GLfloat_of_GLint (bufferWidth w)) = Some (bufferWidth w)) /\
  (Z.abs (bufferHeight w) <= 2 ^ 24 ->
   GLfloat_to_Z (GLfloat_of_GLint (bufferHeight w)) = Some (bufferHeight w)).
Proof.
  intros H. split; [|split; [|split]].
  - apply getBufferWidth_eq, H.
  - apply getBufferHeight_eq, H.
  - apply GLfloat_of_GLint_exact.
  - apply GLfloat_of_GLint_exact.
Qed.

(** ** The key callback *)

Lemma user_pointer_Some (g : GLFW.t) (h : positive) (nw : window) :
  windows g !! h = Some nw ->
  glfwGetWindowUserPointer (Some h) g = Some (userPointer nw).
Proof.
  intros H. unfold glfwGetWindowUserPointer, lookup_ptr. rewrite H. reflexivity.
Qed.

Lemma handleKeys_resolved (s : world) (window : GLFWwindow_ptr) (this : positive)
    (w : Window) (key code action mode : Z) :
  glfwGetWindowUserPointer window (glfw s) = Some (Some this) ->
  heap s !! this = Some w ->
  handleKeys window key code action mode s =
    if decide (0 <= key < KEYS_CAPACITY) then
      if action =? GLFW_PRESS then
        match array_store (keys w) key true with
        | Some ks => store this (set_keys ks w) s
        | None => None
        end
      else if action =? GLFW_RELEASE then
        match array_store (keys w) key false with
        | Some ks => store this (set_keys ks w) s
        | None => None
        end
      else Some (tt, s)
    else Some (tt, s).
Proof.
  intros Hu Hw. unfold handleKeys, bind at 1, native_get. rewrite Hu.
  rewrite (bind_Some _ _ _ _ _ (load_Some _ _ _ Hw)).
  destruct (decide (0 <= key < KEYS_CAPACITY)); [|reflexivity].
  destruct (action =? GLFW_PRESS).
  - destruct (array_store (keys w) key true); reflexivity.
  - destruct (action =? GLFW_RELEASE); [|reflexivity].
    destruct (array_store (keys w) key false); reflexivity.
Qed.

(** C2: a key code outside [0, 1024) is dropped: the callback performs no
    array write at all (an out-of-bounds write would be undefined and make
    the call fail), and it leaves the key-state array and the rest of the
    program state exactly as they were, whatever the action; the same holds
    when the library delivers the event to the native window. *)
Theorem handleKeys_out_of_range_dropped (s : world) (h this : positive)
    (nw : window) (w : Window) (key code action mode : Z) :
  windows (glfw s) !! h = Some nw ->
  userPointer nw = Some this ->
  heap s !! this = Some w ->
  ~ (0 <= key < KEYS_CAPACITY) ->
  handleKeys (Some h) key code action mode s = Some (tt, s) /\
  deliver h (KeyEvent key code action mode) s = Some (tt, s).
Proof.
  intros Hnw Hu Hw Hkey.
  assert (Hk : handleKeys (Some h) key code action mode s = Some (tt, s)).
  { rewrite (handleKeys_resolved s (Some h) this w).
    - destruct (decide (0 <= key < KEYS_CAPACITY)); [contradiction|reflexivity].
    - rewrite (user_pointer_Some _ _ _ Hnw), Hu. reflexivity.
    - exact Hw. }
  split; [exact Hk|].
  unfold deliver. rewrite Hnw. destruct (keyCallback nw); [exact Hk|reflexivity].
Qed.

(** C3: for a key code inside [0, 1024) and an object whose array has its
    1024 slots, a press sets the key's flag and leaves the other flags, and a
    release after the press clears it again. *)
Theorem handleKeys_press_then_release (s : world) (h this : positive)
    (nw : window) (w : Window) (key code mode code' mode' : Z) :
  windows (glfw s) !! h = Some nw ->
  userPointer nw = Some this ->
  heap s !! this = Some w ->
  Z.of_nat (length (keys w)) = KEYS_CAPACITY ->
  0 <= key < KEYS_CAPACITY ->
  exists s1 w1 s2 w2,
    handleKeys (Some h) key code GLFW_PRESS mode s = Some (tt, s1) /\
    heap s1 !! this = Some w1 /\
    array_load (keys w1) key = Some true /\
    (forall j, j <> key -> array_load (keys w1) j = array_load (keys w) j) /\
    handleKeys (Some h) key code' GLFW_RELEASE mode' s1 = Some (tt, s2) /\
    heap s2 !! this = Some w2 /\
    array_load (keys w2) key = Some false /\
    (forall j, j <> key -> array_load (keys w2) j = array_load (keys w) j).
Proof.
  intros Hnw Hu Hw Hlen Hkey.
  assert (Hptr : glfwGetWindowUserPointer (Some h) (glfw s) = Some (Some this))
    by (rewrite (user_pointer_Some _ _ _ Hnw), Hu; reflexivity).
  destruct (proj2 (array_store_Some_iff (keys w) key true)) as [k1 Hk1]; [lia|].
  assert (Hlen1 : length k1 = length (keys w)) by (eapply array_store_length; eauto).
  destruct (proj2 (array_store_Some_iff k1 key false)) as [k2 Hk2]; [lia|].
  set (s1 := mk_world (<[this := set_keys k1 w]> (heap s)) (glfw s)).
  set (s2 := mk_world (<[this := set_keys k2 (set_keys k1 w)]> (heap s1)) (glfw s1)).
  assert (Hw1 : heap s1 !! this = Some (set_keys k1 w)) by apply lookup_insert_eq.
  exists s1, (set_keys k1 w), s2, (set_keys k2 (set_keys k1 w)).
  repeat split.
  - rewrite (handleKeys_resolved s (Some h) this w _ _ _ _ Hptr Hw).
    destruct (decide (0 <= key < KEYS_CAPACITY)); [|contradiction].
    simpl. rewrite Hk1. apply (store_Some this w _ s Hw).
  - exact Hw1.
  - simpl. eapply array_load_store_eq; eauto.
  - intros j Hj. simpl. eapply array_load_store_ne; eauto.
  - rewrite (handleKeys_resolved s1 (Some h) this (set_keys k1 w) _ _ _ _ Hptr Hw1).
    destruct (decide (0 <= key < KEYS_CAPACITY)); [|contradiction].
    simpl. rewrite Hk2. apply (store_Some this _ _ s1 Hw1).
  - apply lookup_insert_eq.
  - simpl. eapply array_load_store_eq; eauto.
  - intros j Hj. simpl. rewrite (array_load_store_ne _ _ _ _ _ Hk2) by auto.
    eapply array_load_store_ne; eauto.
Qed.

(** ** What [Initialise] and the destructor do *)

Lemma Initialise_failure_eq (s : world) (this : positive) (w : Window) :
  heap s !! this = Some w ->
  context_available (env (glfw s)) = false ->
  Initialise this s =
    Some (InitFailure, mk_world (<[this := set_mainWindow None w]> (heap s)) (glfw s)).
Proof.
  intros Hw Hc. unfold Initialise.
  rewrite (bind_Some _ _ _ _ _ (load_Some _ _ _ Hw)).
  unfold bind at 1. unfold glfwCreateWindow. rewrite Hc. rewrite world_eta.
  rewrite (bind_Some _ _ _ _ _ (store_Some _ _ _ _ Hw)). reflexivity.
Qed.

Lemma Initialise_success_eq (s : world) (this : positive) (w : Window) :
  heap s !! this = Some w ->
  context_available (env (glfw s)) = true ->
  Initialise this s =
    Some (InitSuccess,
          mk_world
            (<[this := initialised_fields (env (glfw s)) (fresh (dom (windows (glfw s)))) w]>
               (heap s))
            (GLFW.mk (env (glfw s))
               (<[fresh (dom (windows (glfw s))) :=
                    initialised_window (env (glfw s)) this w]> (windows (glfw s)))
               (Some (fresh (dom (windows (glfw s))))))).
Proof.
  intros Hw Hc. unfold Initialise.
  rewrite (bind_Some _ _ _ _ _ (load_Some _ _ _ Hw)).
  unfold bind at 1. unfold glfwCreateWindow. rewrite Hc.
  set (h := fresh (dom (windows (glfw s)))).
  set (fb := framebuffer_for (env (glfw s)) (width w) (height w)).
  repeat first
    [ progress unfold bind, store, native_get, native_do, createCallbacks,
        load, ret, glfwGetFramebufferSize, glfwMakeContextCurrent,
        glfwSetKeyCallback, glfwSetCursorPosCallback, glfwSetInputMode,
        glfwSetWindowUserPointer, update_ptr, lookup_ptr, with_windows
    | rewrite lookup_insert_eq
    | rewrite insert_insert_eq
    | rewrite Hw
    | progress cbn [heap glfw windows env current mainWindow
                    set_mainWindow set_buffer]
    | progress change (GLFW_CURSOR =? GLFW_CURSOR) with true
    | progress cbv iota ].
  reflexivity.
Qed.

Lemma getXChange_eq (s : world) (this : positive) (w : Window) :
  heap s !! this = Some w ->
  getXChange this s = Some (xChange w, put this (set_xChange fzero w) s).
Proof.
  intros Hw. unfold getXChange.
  rewrite (bind_Some _ _ _ _ _ (load_Some _ _ _ Hw)).
  rewrite (bind_Some _ _ _ _ _ (store_Some _ _ _ _ Hw)). reflexivity.
Qed.

Lemma getYChange_eq (s : world) (this : positive) (w : Window) :
  heap s !! this = Some w ->
  getYChange this s = Some (yChange w, put this (set_yChange fzero w) s).
Proof.
  intros Hw. unfold getYChange.
  rewrite (bind_Some _ _ _ _ _ (load_Some _ _ _ Hw)).
  rewrite (bind_Some _ _ _ _ _ (store_Some _ _ _ _ Hw)). reflexivity.
Qed.

Lemma Window_delete_eq (s : world) (this : positive) (w : Window) :
  heap s !! this = Some w ->
  Window_delete this s =
    match glfwDestroyWindow (mainWindow w) (glfw s) with
    | Some g => Some (tt, mk_world (delete this (heap s)) g)
    | None => None
    end.
Proof.
  intros Hw. unfold Window_delete.
  rewrite (bind_Some _ _ _ _ _ (load_Some _ _ _ Hw)).
  unfold bind, native_do, free.
  destruct (glfwDestroyWindow (mainWindow w) (glfw s)); [|reflexivity].
  cbn [heap glfw]. rewrite Hw. reflexivity.
Qed.

Lemma handleMouse_resolved (s : world) (window : GLFWwindow_ptr) (this : positive)
    (w : Window) (xPos yPos : double) :
  glfwGetWindowUserPointer window (glfw s) = Some (Some this) ->
  heap s !! this = Some w ->
  handleMouse window xPos yPos s = Some (tt, put this (mouse_moved xPos yPos w) s).
Proof.
  intros Hu Hw. unfold handleMouse, bind at 1, native_get. rewrite Hu.
  rewrite (bind_Some _ _ _ _ _ (load_Some _ _ _ Hw)). unfold mouse_moved.
  destruct (mouseFirstMoved w); apply (store_Some _ _ _ _ Hw).
Qed.

Lemma call_dead (s : world) (this : positive) (m : method) :
  heap s !! this = None -> call this m s = None.
Proof.
  intros H. destruct m; simpl;
    unfold fmapM, Initialise, getBufferWidth, getBufferHeight, getXChange,
      getYChange, getShouldClose, getKeys, SwapBuffers, Window_delete;
    unfold bind at 1; unfold bind at 1; unfold load; rewrite H; reflexivity.
Qed.

(** A callback that runs resolves its object through the user pointer. *)
Lemma handleKeys_inv (s s' : world) (h : positive) (key code action mode : Z)
    (u : unit) :
  handleKeys (Some h) key code action mode s = Some (u, s') ->
  exists nw this w, windows (glfw s) !! h = Some nw /\
                    userPointer nw = Some this /\ heap s !! this = Some w.
Proof.
  unfold handleKeys. intros H. apply bind_inv in H as (o & s1 & Hu & H).
  unfold native_get, glfwGetWindowUserPointer, lookup_ptr in Hu.
  destruct (windows (glfw s) !! h) as [nw|] eqn:Hnw; [|discriminate].
  injection Hu as <- <-. destruct (userPointer nw) as [this|] eqn:Hp; [|discriminate].
  apply bind_inv in H as (w & s1 & Hl & _). apply load_inv in Hl as [Hw _].
  exists nw, this, w. auto.
Qed.

Lemma handleMouse_inv (s s' : world) (h : positive) (xPos yPos : double) (u : unit) :
  handleMouse (Some h) xPos yPos s = Some (u, s') ->
  exists nw this w, windows (glfw s) !! h = Some nw /\
                    userPointer nw = Some this /\ heap s !! this = Some w.
Proof.
  unfold handleMouse. intros H. apply bind_inv in H as (o & s1 & Hu & H).
  unfold native_get, glfwGetWindowUserPointer, lookup_ptr in Hu.
  destruct (windows (glfw s) !! h) as [nw|] eqn:Hnw; [|discriminate].
  injection Hu as <- <-. destruct (userPointer nw) as [this|] eqn:Hp; [|discriminate].
  apply bind_inv in H as (w & s1 & Hl & _). apply load_inv in Hl as [Hw _].
  exists nw, this, w. auto.
Qed.

Section Steps.
Variables default_width default_height : GLint.
Local Abbreviation exec := (exec default_width default_height).
Local Abbreviation run := (run default_width default_height).
Local Abbreviation step := (step default_width default_height).
Local Abbreviation reachable := (reachable default_width default_height).

(** [exec] follows the step relation. *)
Lemma exec_step (a : action) (s s' : world) (v : value) :
  exec a s = Some (v, s') -> step a s s'.
Proof.
  intros H. destruct a as [ww hh j|j|this m|h e]; simpl in H.
  - injection H as _ <-. constructor.
  - injection H as _ <-. constructor.
  - destruct (heap s !! this) as [w|] eqn:Hw;
      [|rewrite (call_dead s this m Hw) in H; discriminate].
    destruct m; simpl in H; apply fmapM_inv in H as (r & H & _).
    + destruct (context_available (env (glfw s))) eqn:Hc.
      * rewrite (Initialise_success_eq s this w Hw Hc) in H. injection H as _ <-.
        apply step_Initialise_success; assumption.
      * rewrite (Initialise_failure_eq s this w Hw Hc) in H. injection H as _ <-.
        apply step_Initialise_failure; assumption.
    + apply getBufferWidth_inv in H as ->. eapply step_pure_accessor; eauto.
    + apply getBufferHeight_inv in H as ->. eapply step_pure_accessor; eauto.
    + rewrite (getXChange_eq s this w Hw) in H. injection H as _ <-.
      apply step_getXChange; assumption.
    + rewrite (getYChange_eq s this w Hw) in H. injection H as _ <-.
      apply step_getYChange; assumption.
    + apply getShouldClose_inv in H as [-> (w0 & h & nw & Hw0 & Hh & Hnw & _)].
      apply (step_getShouldClose _ _ s this w0 h nw Hw0 Hh Hnw).
    + apply getKeys_inv in H as [-> _]. eapply step_pure_accessor; eauto.
    + apply SwapBuffers_inv in H as (w0 & g & Hw0 & Hg & ->).
      unfold glfwSwapBuffers, update_ptr, lookup_ptr in Hg.
      destruct (mainWindow w0) as [h|] eqn:Hh; [|discriminate].
      destruct (windows (glfw s) !! h) as [nw|] eqn:Hnw; [|discriminate].
      injection Hg as <-. apply (step_SwapBuffers _ _ s this w0 h nw Hw0 Hh Hnw).
    + rewrite (Window_delete_eq s this w Hw) in H. unfold glfwDestroyWindow in H.
      destruct (mainWindow w) as [h|] eqn:Hh.
      * destruct (windows (glfw s) !! h) as [nw|] eqn:Hnw; [|discriminate].
        injection H as _ <-. eapply step_delete; eauto.
      * injection H as _ <-. eapply step_delete_null; eauto.
  - apply fmapM_inv in H as (r & H & _). unfold deliver in H.
    destruct (windows (glfw s) !! h) as [nw|] eqn:Hnw;
      [|injection H as _ <-; apply step_Deliver_no_window; assumption].
    destruct e as [key code action mode|xPos yPos|].
    + destruct (keyCallback nw) eqn:Hcb;
        [|injection H as _ <-; eapply step_Deliver_no_callback; eauto].
      pose proof (handleKeys_inv _ _ _ _ _ _ _ _ H) as (nw' & this & w & Hnw' & Hu & Hw).
      rewrite Hnw in Hnw'. injection Hnw' as <-.
      rewrite (handleKeys_resolved s (Some h) this w) in H;
        [|rewrite (user_pointer_Some _ _ _ Hnw), Hu; reflexivity|exact Hw].
      destruct (decide (0 <= key < KEYS_CAPACITY)) as [Hk|Hk];
        [|injection H as _ <-; eapply step_handleKeys_dropped; eauto].
      destruct (action =? GLFW_PRESS) eqn:Hp.
      * destruct (array_store (keys w) key true) as [ks|] eqn:Hks; [|discriminate].
        rewrite (store_Some _ _ _ _ Hw) in H. injection H as _ <-.
        apply Z.eqb_eq in Hp. eapply step_handleKeys_stored; eauto.
        rewrite Hp. exact Hks.
      * destruct (action =? GLFW_RELEASE) eqn:Hr.
        -- destruct (array_store (keys w) key false) as [ks|] eqn:Hks; [|discriminate].
           rewrite (store_Some _ _ _ _ Hw) in H. injection H as _ <-.
           apply Z.eqb_eq in Hr. eapply step_handleKeys_stored; eauto.
           rewrite Hp. exact Hks.
        -- injection H as _ <-. apply Z.eqb_neq in Hp, Hr.
           eapply step_handleKeys_dropped; eauto.
    + destruct (cursorPosCallback nw) eqn:Hcb;
        [|injection H as _ <-; eapply step_Deliver_no_callback; eauto].
      pose proof (handleMouse_inv _ _ _ _ _ _ H) as (nw' & this & w & Hnw' & Hu & Hw).
      rewrite Hnw in Hnw'. injection Hnw' as <-.
      rewrite (handleMouse_resolved s (Some h) this w) in H;
        [|rewrite (user_pointer_Some _ _ _ Hnw), Hu; reflexivity|exact Hw].
      injection H as _ <-. eapply step_handleMouse; eauto.
    + injection H as _ <-. unfold close_request. rewrite Hnw.
      apply (step_close_request _ _ s h nw Hnw).
Qed.

(** A property kept by every step whose action satisfies [Q] is kept by
    every run made of such actions. *)
Lemma run_invariant_when (Q : action -> Prop) (P : world -> Prop) :
  (forall a s s', Q a -> P s -> step a s s' -> P s') ->
  forall tr s s', Forall Q tr -> P s -> run tr s = Some s' -> P s'.
Proof.
  intros Hstep tr. induction tr as [|a tr IH]; intros s s' HQ HP H; simpl in H.
  - injection H as <-. exact HP.
  - destruct (exec a s) as [[v s1]|] eqn:He; [|discriminate].
    apply Forall_cons in HQ as [Ha HQ].
    apply (IH s1 s' HQ); [|exact H].
    apply (Hstep a s s1 Ha HP). apply (exec_step _ _ _ _ He).
Qed.

(** An invariant of the step relation holds in every reachable state. *)
Lemma run_invariant (P : world -> Prop) :
  (forall a s s', P s -> step a s s' -> P s') ->
  forall tr s s', P s -> run tr s = Some s' -> P s'.
Proof.
  intros Hstep tr s s' HP H.
  refine (run_invariant_when (fun _ => True) P _ tr s s' _ HP H).
  - intros a s0 s1 _. apply Hstep.
  - clear. induction tr; constructor; auto.
Qed.

Lemma reachable_invariant (P : world -> Prop) :
  (forall e, P (start e)) ->
  (forall a s s', P s -> step a s s' -> P s') ->
  forall s, reachable s -> P s.
Proof.
  intros Hinit Hstep s (e & tr & H).
  apply (run_invariant P Hstep tr (start e) s (Hinit e) H).
Qed.

Lemma run_app (tr1 tr2 : list action) (s : world) :
  run (tr1 ++ tr2) s =
    match run tr1 s with
    | Some s1 => run tr2 s1
    | None => None
    end.
Proof.
  revert s. induction tr1 as [|a tr1 IH]; intros s; simpl; [reflexivity|].
  destruct (exec a s) as [[v s1]|]; [apply IH|reflexivity].
Qed.

Lemma reachable_run (tr : list action) (s s' : world) :
  reachable s -> run tr s = Some s' -> reachable s'.
Proof.
  intros (e & tr0 & H0) H. exists e, (tr0 ++ tr). rewrite run_app, H0. exact H.
Qed.

End Steps.

(** ** Invariants of the step relation *)

Lemma lookup_insert_cases (m : gmap positive Window) (i o : positive) (x w' : Window) :
  <[i := x]> m !! o = Some w' -> (o = i /\ w' = x) \/ (o <> i /\ m !! o = Some w').
Proof.
  intros H. destruct (decide (i = o)) as [->|Hne].
  - rewrite lookup_insert_eq in H. injection H as <-. auto.
  - rewrite lookup_insert_ne in H by exact Hne. auto.
Qed.

Section Invariants.
Variables default_width default_height : GLint.
Local Abbreviation step := (step default_width default_height).
Local Abbreviation reachable := (reachable default_width default_height).

Lemma keys_ok_put (s : world) (this : positive) (w1 : Window) :
  keys_ok s -> Z.of_nat (length (keys w1)) = KEYS_CAPACITY ->
  keys_ok (put this w1 s).
Proof.
  intros Hs H1 o w Ho. simpl in Ho.
  apply lookup_insert_cases in Ho as [[_ ->]|[_ Ho]]; [exact H1|eauto].
Qed.

Lemma Window_fields_keys (windowWidth windowHeight : GLint) (junk : indeterminate) :
  Z.of_nat (length (keys (Window_fields windowWidth windowHeight junk))) = KEYS_CAPACITY.
Proof. unfold Window_fields. cbn [keys]. rewrite length_replicate. unfold KEYS_CAPACITY. lia. Qed.

Lemma step_keys_ok (a : action) (s s' : world) :
  keys_ok s -> step a s s' -> keys_ok s'.
Proof.
  intros Hs Hst.
  destruct Hst;
    try exact Hs;
    try (apply keys_ok_put; [exact Hs|]);
    try apply Window_fields_keys;
    try (simpl; eapply Hs; eassumption).
  - intros o w' Ho. simpl in Ho. apply lookup_delete_Some in Ho as [_ Ho]. eauto.
  - intros o w' Ho. simpl in Ho. apply lookup_delete_Some in Ho as [_ Ho]. eauto.
  - simpl. erewrite array_store_length by eassumption. eapply Hs; eassumption.
  - unfold mouse_moved. destruct (mouseFirstMoved w); simpl; eapply Hs; eassumption.
Qed.

Lemma reachable_keys_ok (s : world) : reachable s -> keys_ok s.
Proof.
  apply reachable_invariant.
  - intros e o w Ho. simpl in Ho. rewrite lookup_empty in Ho. discriminate.
  - intros a s0 s1. apply step_keys_ok.
Qed.

Lemma owned_put_null (s : world) (this : positive) (w1 : Window) :
  owned s -> mainWindow w1 = None -> owned (put this w1 s).
Proof.
  intros Hs H1 o w h Ho Hh. simpl in Ho.
  apply lookup_insert_cases in Ho as [[_ ->]|[_ Ho]]; [congruence|].
  apply (Hs o w h Ho Hh).
Qed.

Lemma owned_put (s : world) (this : positive) (w w1 : Window) :
  owned s -> heap s !! this = Some w -> mainWindow w1 = mainWindow w ->
  owned (put this w1 s).
Proof.
  intros Hs Hw H1 o w' h Ho Hh. simpl in Ho.
  apply lookup_insert_cases in Ho as [[-> ->]|[_ Ho]].
  - rewrite H1 in Hh. apply (Hs this w h Hw Hh).
  - apply (Hs o w' h Ho Hh).
Qed.

Lemma owned_put_native (s : world) (h : positive) (nw nw' : window) :
  owned s -> windows (glfw s) !! h = Some nw ->
  userPointer nw' = userPointer nw -> owned (put_native h nw' s).
Proof.
  intros Hs Hnw Hu o w h' Ho Hh. simpl in Ho.
  destruct (Hs o w h' Ho Hh) as (nw0 & Hnw0 & Hu0). simpl.
  destruct (decide (h = h')) as [<-|Hne].
  - exists nw'. rewrite lookup_insert_eq. split; [reflexivity|]. congruence.
  - exists nw0. rewrite lookup_insert_ne by exact Hne. auto.
Qed.

Lemma step_owned (a : action) (s s' : world) :
  owned s -> step a s s' -> owned s'.
Proof.
  intros Hs Hst.
  destruct Hst;
    try exact Hs;
    try (apply owned_put_null; [exact Hs|reflexivity]);
    try (eapply owned_put; [exact Hs|eassumption|reflexivity]);
    try (eapply owned_put_native; [exact Hs|eassumption|reflexivity]).
  - (* Initialise, success *)
    intros o w' h Ho Hh. simpl in Ho. simpl.
    apply lookup_insert_cases in Ho as [[-> ->]|[Hne Ho]].
    + simpl in Hh. injection Hh as <-.
      exists (initialised_window (env (glfw s)) this w).
      rewrite lookup_insert_eq. auto.
    + destruct (Hs o w' h Ho Hh) as (nw & Hnw & Hu). exists nw.
      rewrite lookup_insert_ne; [auto|].
      intros <-. apply (is_fresh (dom (windows (glfw s)))).
      apply elem_of_dom. rewrite Hnw. eauto.
  - (* destructor, null handle *)
    intros o w' h Ho Hh. simpl in Ho. apply lookup_delete_Some in Ho as [_ Ho].
    apply (Hs o w' h Ho Hh).
  - (* destructor, live handle *)
    intros o w' h' Ho Hh. simpl in Ho. apply lookup_delete_Some in Ho as [Hne Ho].
    destruct (Hs o w' h' Ho Hh) as (nw' & Hnw' & Hu'). exists nw'. simpl.
    rewrite lookup_delete_ne; [auto|].
    intros <-.
    match goal with
    | Hw : heap s !! this = Some w, Hm : mainWindow w = Some _ |- _ =>
        destruct (Hs this w _ Hw Hm) as (nw0 & Hnw0 & Hu0)
    end.
    congruence.
  - (* cursor callback *)
    eapply owned_put; [exact Hs|eassumption|].
    unfold mouse_moved. destruct (mouseFirstMoved w); reflexivity.
Qed.

Lemma reachable_owned (s : world) : reachable s -> owned s.
Proof.
  apply reachable_invariant.
  - intros e o w h Ho. simpl in Ho. rewrite lookup_empty in Ho. discriminate.
  - intros a s0 s1. apply step_owned.
Qed.

End Invariants.

(** ** The key array *)

Section Capacity.
Variables default_width default_height : GLint.
Local Abbreviation reachable := (reachable default_width default_height).

(** C8: the key-state array has exactly 1024 slots: in every reachable
    state every live [Window] holds an array of that length, so that the
    indices at which the array can be written or read are exactly 0 to 1023;
    no operation changes the capacity. *)
Theorem keys_capacity_is_1024 (s : world) (this : positive) (w : Window) :
  reachable s -> heap s !! this = Some w ->
  KEYS_CAPACITY = 1024 /\
  Z.of_nat (length (keys w)) = 1024 /\
  (forall i v, is_Some (array_store (keys w) i v) <-> 0 <= i <= 1023) /\
  (forall i, is_Some (array_load (keys w) i) <-> 0 <= i <= 1023).
Proof.
  intros Hr Hw.
  assert (Hlen : Z.of_nat (length (keys w)) = 1024)
    by apply (reachable_keys_ok _ _ s Hr this w Hw).
  split; [reflexivity|]. split; [exact Hlen|]. split.
  - intros i v. rewrite array_store_Some_iff. lia.
  - intros i. unfold array_load. destruct (decide (0 <= i)) as [Hi|Hi].
    + rewrite lookup_lt_is_Some. lia.
    + split; [intros [x Hx]; discriminate|lia].
Qed.

End Capacity.

(** ** The close flag *)

Section CloseFlag.
Variables default_width default_height : GLint.
Local Abbreviation exec := (exec default_width default_height).
Local Abbreviation run := (run default_width default_height).
Local Abbreviation step := (step default_width default_height).
Local Abbreviation reachable := (reachable default_width default_height).

Lemma close_pending_put (this h : positive) (s : world) (o : positive)
    (w0 w1 : Window) :
  close_pending this h s -> heap s !! o = Some w0 ->
  mainWindow w1 = mainWindow w0 -> close_pending this h (put o w1 s).
Proof.
  intros (w & nw & Hw & Hh & Hnw & Hc) Ho Hm.
  destruct (decide (o = this)) as [->|Hne].
  - exists w1, nw. simpl. rewrite lookup_insert_eq.
    repeat split; try assumption. congruence.
  - exists w, nw. simpl. rewrite lookup_insert_ne by exact Hne. auto.
Qed.

Lemma close_pending_put_fresh (this h : positive) (s : world) (w1 : Window) :
  close_pending this h s ->
  close_pending this h (put (fresh (dom (heap s))) w1 s).
Proof.
  intros (w & nw & Hw & Hh & Hnw & Hc). exists w, nw. simpl.
  rewrite lookup_insert_ne; [auto|].
  intros Heq. apply (is_fresh (dom (heap s))). rewrite Heq.
  apply elem_of_dom. rewrite Hw. eauto.
Qed.

Lemma close_pending_put_native (this h : positive) (s : world) (h0 : positive)
    (nw0 nw1 : window) :
  close_pending this h s -> windows (glfw s) !! h0 = Some nw0 ->
  shouldClose nw1 = shouldClose nw0 \/ shouldClose nw1 = GLFW_TRUE ->
  close_pending this h (put_native h0 nw1 s).
Proof.
  intros (w & nw & Hw & Hh & Hnw & Hc) H0 H1.
  destruct (decide (h0 = h)) as [->|Hne].
  - exists w, nw1. simpl. rewrite lookup_insert_eq.
    repeat split; try assumption. destruct H1 as [H1|H1]; congruence.
  - exists w, nw. simpl. rewrite lookup_insert_ne by exact Hne. auto.
Qed.

Lemma step_close_pending (this h : positive) (a : action) (s s' : world) :
  keeps_window this a -> owned s -> close_pending this h s -> step a s s' ->
  close_pending this h s'.
Proof.
  intros [Hni Hnd] Hown Hp Hst.
  destruct Hst;
    try exact Hp;
    try (apply close_pending_put_fresh; exact Hp);
    try (eapply close_pending_put; [exact Hp|eassumption|reflexivity]);
    try (eapply close_pending_put_native; [exact Hp|eassumption|auto; fail]).
  - (* Initialise of another object, failure *)
    destruct Hp as (w0 & nw & Hw & Hh & Hnw & Hc).
    assert (Hne : this0 <> this) by congruence.
    exists w0, nw. simpl. rewrite lookup_insert_ne by exact Hne. auto.
  - (* Initialise of another object, success *)
    destruct Hp as (w0 & nw & Hw & Hh & Hnw & Hc).
    assert (Hne : this0 <> this) by congruence.
    exists w0, nw. simpl. rewrite lookup_insert_ne by exact Hne.
    rewrite lookup_insert_ne; [auto|].
    intros Heq. apply (is_fresh (dom (windows (glfw s)))). rewrite Heq.
    apply elem_of_dom. rewrite Hnw. eauto.
  - (* destructor of another object, null handle *)
    destruct Hp as (w0 & nw & Hw & Hh & Hnw & Hc).
    assert (Hne : this0 <> this) by congruence.
    exists w0, nw. simpl. rewrite lookup_delete_ne by exact Hne. auto.
  - (* destructor of another object, live handle *)
    destruct Hp as (w0 & nw0 & Hw & Hh & Hnw & Hc).
    assert (Hne : this0 <> this) by congruence.
    exists w0, nw0. simpl. rewrite lookup_delete_ne by exact Hne.
    rewrite lookup_delete_ne; [auto|].
    intros <-.
    match goal with
    | Hw1 : heap s !! this0 = Some ?w1, Hm : mainWindow ?w1 = Some _ |- _ =>
        destruct (Hown this0 w1 _ Hw1 Hm) as (nw1 & Hnw1 & Hu1)
    end.
    destruct (Hown this w0 _ Hw Hh) as (nw2 & Hnw2 & Hu2). congruence.
  - (* cursor callback *)
    eapply close_pending_put; [exact Hp|eassumption|].
    unfold mouse_moved. destruct (mouseFirstMoved w); reflexivity.
Qed.

Lemma run_close_pending (this h : positive) (tr : list action) (s s' : world) :
  Forall (keeps_window this) tr -> owned s -> close_pending this h s ->
  run tr s = Some s' -> close_pending this h s'.
Proof.
  intros Htr Hown Hp Hrun.
  refine (proj2 (run_invariant_when _ _ (keeps_window this)
                   (fun s => owned s /\ close_pending this h s)
                   _ tr s s' Htr (conj Hown Hp) Hrun)).
  intros a s0 s1 Ha [Ho Hc] Hst. split.
  - apply (step_owned _ _ a s0 s1 Ho Hst).
  - apply (step_close_pending this h a s0 s1 Ha Ho Hc Hst).
Qed.

Lemma getShouldClose_pending (this h : positive) (s : world) :
  close_pending this h s -> getShouldClose this s = Some (true, s).
Proof.
  intros (w & nw & Hw & Hh & Hnw & Hc).
  rewrite (getShouldClose_eq s this h w nw Hw Hh Hnw), Hc. reflexivity.
Qed.

End CloseFlag.

Section CloseFlagReport.
Variables default_width default_height : GLint.
Local Abbreviation exec := (exec default_width default_height).
Local Abbreviation run := (run default_width default_height).
Local Abbreviation reachable := (reachable default_width default_height).

Lemma Initialise_success_inv (s s1 : world) (this : positive) (w : Window) :
  heap s !! this = Some w ->
  Initialise this s = Some (InitSuccess, s1) ->
  context_available (env (glfw s)) = true /\
  s1 = mk_world
         (<[this := initialised_fields (env (glfw s))
                      (fresh (dom (windows (glfw s)))) w]> (heap s))
         (GLFW.mk (env (glfw s))
            (<[fresh (dom (windows (glfw s))) :=
                 initialised_window (env (glfw s)) this w]> (windows (glfw s)))
            (Some (fresh (dom (windows (glfw s)))))).
Proof.
  intros Hw H. destruct (context_available (env (glfw s))) eqn:Hc.
  - rewrite (Initialise_success_eq s this w Hw Hc) in H. injection H as <-. auto.
  - rewrite (Initialise_failure_eq s this w Hw Hc) in H. discriminate.
Qed.

Lemma deliver_close_eq (s : world) (h : positive) (nw : window) :
  windows (glfw s) !! h = Some nw ->
  exec (Deliver h CloseEvent) s =
    Some (VUnit, put_native h (set_shouldClose GLFW_TRUE nw) s).
Proof.
  intros Hnw. simpl. unfold fmapM, bind, deliver, close_request.
  rewrite Hnw. reflexivity.
Qed.

(** C7: [getShouldClose] reports the close flag of the native window.
    Right after a successful [Initialise] it returns [false].  In every
    reachable state in which the object holds a window, it returns the flag
    the library holds for that window and changes nothing; and once the
    windowing system has signalled a close request for the window, it
    returns [true], also after any further operations that neither destroy
    the object nor initialise it again. *)
Theorem getShouldClose_reports_close_request (s : world) (this : positive)
    (w : Window) :
  reachable s -> heap s !! this = Some w ->
  (forall s1, Initialise this s = Some (InitSuccess, s1) ->
     getShouldClose this s1 = Some (false, s1)) /\
  (forall h, mainWindow w = Some h ->
     exists nw s2,
       windows (glfw s) !! h = Some nw /\
       getShouldClose this s = Some (bool_of_int (shouldClose nw), s) /\
       exec (Deliver h CloseEvent) s = Some (VUnit, s2) /\
       forall tr s3, Forall (keeps_window this) tr -> run tr s2 = Some s3 ->
         getShouldClose this s3 = Some (true, s3)).
Proof.
  intros Hr Hw. split.
  - intros s1 H. apply (Initialise_success_inv s s1 this w Hw) in H as [_ ->].
    rewrite (getShouldClose_eq _ this (fresh (dom (windows (glfw s))))
               (initialised_fields (env (glfw s)) (fresh (dom (windows (glfw s)))) w)
               (initialised_window (env (glfw s)) this w)).
    + reflexivity.
    + apply lookup_insert_eq.
    + reflexivity.
    + apply lookup_insert_eq.
  - intros h Hh.
    pose proof (reachable_owned _ _ s Hr) as Hown.
    destruct (Hown this w h Hw Hh) as (nw & Hnw & Hu).
    exists nw, (put_native h (set_shouldClose GLFW_TRUE nw) s).
    split; [exact Hnw|]. split; [apply (getShouldClose_eq s this h w nw Hw Hh Hnw)|].
    split; [apply (deliver_close_eq s h nw Hnw)|].
    intros tr s3 Htr Hrun.
    apply (getShouldClose_pending this h).
    apply (run_close_pending default_width default_height this h tr
             (put_native h (set_shouldClose GLFW_TRUE nw) s) s3 Htr).
    + apply (owned_put_native s h nw _ Hown Hnw). reflexivity.
    + exists w, (set_shouldClose GLFW_TRUE nw). simpl.
      rewrite lookup_insert_eq. auto.
    + exact Hrun.
Qed.

End CloseFlagReport.

(** ** Failure of [Initialise] and the destructor *)

Lemma new_eq (w : Window) (s : world) :
  new w s = Some (fresh (dom (heap s)), put (fresh (dom (heap s))) w s).
Proof. reflexivity. Qed.

Lemma fresh_heap_None (s : world) : heap s !! fresh (dom (heap s)) = None.
Proof. apply not_elem_of_dom, is_fresh. Qed.

Lemma Window_delete_new (w : Window) (s : world) :
  mainWindow w = None ->
  Window_delete (fresh (dom (heap s))) (put (fresh (dom (heap s))) w s)
    = Some (tt, s).
Proof.
  intros Hm.
  rewrite (Window_delete_eq _ _ w) by apply lookup_insert_eq.
  rewrite Hm. simpl. rewrite delete_insert_id by apply fresh_heap_None.
  rewrite world_eta. reflexivity.
Qed.

(** C5: when the native window cannot be created, [Initialise] returns
    [InitFailure]; the library's state is what it was (no native window has
    been added), the object's handle is null, and the destructor then runs
    without fault and releases nothing but the object.  The destructor is
    just as safe on an object on which [Initialise] was never called: it
    undoes the construction. *)
Theorem Initialise_failure_leaves_no_handle (s : world) (this : positive)
    (w : Window) :
  heap s !! this = Some w ->
  fst (glfwCreateWindow (width w) (height w) (glfw s)) = None ->
  exists s1 w1,
    Initialise this s = Some (InitFailure, s1) /\
    glfw s1 = glfw s /\
    heap s1 !! this = Some w1 /\ w1 = set_mainWindow None w /\
    mainWindow w1 = None /\
    Window_delete this s1 = Some (tt, mk_world (delete this (heap s)) (glfw s)) /\
    (forall windowWidth windowHeight junk p s',
       Window_new windowWidth windowHeight junk s = Some (p, s') ->
       Window_delete p s' = Some (tt, s)) /\
    (forall default_width default_height junk p s',
       Window_new_default default_width default_height junk s = Some (p, s') ->
       Window_delete p s' = Some (tt, s)).
Proof.
  intros Hw Hfail.
  assert (Hc : context_available (env (glfw s)) = false).
  { unfold glfwCreateWindow in Hfail.
    destruct (context_available (env (glfw s))); [discriminate|reflexivity]. }
  exists (put this (set_mainWindow None w) s), (set_mainWindow None w).
  split; [apply (Initialise_failure_eq s this w Hw Hc)|].
  split; [reflexivity|]. split; [apply lookup_insert_eq|]. split; [reflexivity|].
  split; [reflexivity|]. split; [|split].
  - rewrite (Window_delete_eq _ _ (set_mainWindow None w)) by apply lookup_insert_eq.
    simpl. rewrite delete_insert_eq. reflexivity.
  - intros ww hh junk p s' H. unfold Window_new in H. rewrite new_eq in H.
    injection H as <- <-. apply Window_delete_new. reflexivity.
  - intros dw dh junk p s' H. unfold Window_new_default in H. rewrite new_eq in H.
    injection H as <- <-. apply Window_delete_new. reflexivity.
Qed.

(** ** The framebuffer size after [Initialise] *)

(** C6 (as amended): after a successful [Initialise] the accessors return
    the framebuffer size that the windowing system reports for the object's
    window, converted from [GLint] to [GLfloat]; the size is the one the host
    gives for the requested dimensions, not the requested dimensions
    themselves.  The accessors succeed and leave the state as it is.  The
    returned value denotes the reported size exactly whenever the magnitude
    of that size is at most [2 ^ 24]. *)
Theorem getBuffer_after_Initialise (s s1 : world) (this : positive) (w : Window) :
  heap s !! this = Some w ->
  Initialise this s = Some (InitSuccess, s1) ->
  exists w1 fb,
    heap s1 !! this = Some w1 /\
    glfwGetFramebufferSize (mainWindow w1) (glfw s1) = Some fb /\
    fb = framebuffer_for (env (glfw s)) (width w) (height w) /\
    getBufferWidth this s1 = Some (GLfloat_of_GLint (fst fb), s1) /\
    getBufferHeight this s1 = Some (GLfloat_of_GLint (snd fb), s1) /\
    (Z.abs (fst fb) <= 2 ^ 24 ->
     GLfloat_to_Z (GLfloat_of_GLint (fst fb)) = Some (fst fb)) /\
    (Z.abs (snd fb) <= 2 ^ 24 ->
     GLfloat_to_Z (GLfloat_of_GLint (snd fb)) = Some (snd fb)).
Proof.
  intros Hw H. apply (Initialise_success_inv s s1 this w Hw) in H as [Hc ->].
  set (h := fresh (dom (windows (glfw s)))).
  set (fb := framebuffer_for (env (glfw s)) (width w) (height w)).
  assert (Hw1 : heap (mk_world
                        (<[this := initialised_fields (env (glfw s)) h w]> (heap s))
                        (GLFW.mk (env (glfw s))
                           (<[h := initialised_window (env (glfw s)) this w]>
                              (windows (glfw s))) (Some h))) !! this
                = Some (initialised_fields (env (glfw s)) h w))
    by apply lookup_insert_eq.
  exists (initialised_fields (env (glfw s)) h w), fb.
  split; [exact Hw1|]. split.
  { unfold glfwGetFramebufferSize, lookup_ptr. simpl.
    rewrite lookup_insert_eq. simpl. fold fb. destruct fb; reflexivity. }
  split; [reflexivity|].
  split; [apply (getBufferWidth_eq _ _ _ Hw1)|].
  split; [apply (getBufferHeight_eq _ _ _ Hw1)|].
  split; apply GLfloat_of_GLint_exact.
Qed.

Lemma constructed_run (e : host) :
  run 800 600 [New 800 600 sample_junk] (start e) = Some (constructed e).
Proof. reflexivity. Qed.

Lemma constructed_reachable (e : host) : reachable 800 600 (constructed e).
Proof. exists e, [New 800 600 sample_junk]. apply constructed_run. Qed.

Lemma constructed_lookup (e : host) :
  heap (constructed e) !! 1%positive = Some (Window_fields 800 600 sample_junk).
Proof. reflexivity. Qed.

Lemma initialised_eq (e : host) :
  context_available e = true ->
  Initialise 1%positive (constructed e) = Some (InitSuccess, initialised e).
Proof.
  intros Hc.
  rewrite (Initialise_success_eq (constructed e) 1%positive
             (Window_fields 800 600 sample_junk) (constructed_lookup e) Hc).
  reflexivity.
Qed.

Lemma initialised_reachable (e : host) :
  context_available e = true -> reachable 800 600 (initialised e).
Proof.
  intros Hc. apply (reachable_run 800 600 [Call 1%positive m_Initialise] (constructed e)).
  - apply constructed_reachable.
  - simpl. unfold fmapM, bind. rewrite (initialised_eq e Hc). reflexivity.
Qed.

(** C6, as stated, fails: on a host whose framebuffer is 16777217 pixels
    wide [getBufferWidth] returns the float 16777216, which is not the size
    the windowing system reports.  (16777217 lies strictly between two
    neighbouring binary32 values, so no rounding could return it.) *)
Lemma getBuffer_exact_counterexample :
  ~ (forall (s s1 s2 : world) (this : positive) (w w1 : Window) (fb : Z * Z)
            (f : GLfloat),
       heap s !! this = Some w ->
       Initialise this s = Some (InitSuccess, s1) ->
       heap s1 !! this = Some w1 ->
       glfwGetFramebufferSize (mainWindow w1) (glfw s1) = Some fb ->
       getBufferWidth this s1 = Some (f, s2) ->
       GLfloat_to_Z f = Some (fst fb)).
Proof.
  intros H.
  specialize (H (constructed wide_host) (initialised wide_host) (initialised wide_host)
                1%positive (Window_fields 800 600 sample_junk)
                (initialised_fields wide_host 1%positive
                   (Window_fields 800 600 sample_junk))
                (16777217, 600) (GLfloat_of_GLint 16777217)
                (constructed_lookup wide_host)
                (initialised_eq wide_host eq_refl)
                eq_refl eq_refl eq_refl).
  vm_compute in H. discriminate H.
Qed.

(** ** The cursor callback and the accumulated deltas *)

Lemma put_same (s : world) (this : positive) (w : Window) :
  heap s !! this = Some w -> put this w s = s.
Proof. intros H. unfold put. rewrite insert_id by exact H. apply world_eta. Qed.

Lemma put_put (s : world) (this : positive) (w1 w2 : Window) :
  put this w2 (put this w1 s) = put this w2 s.
Proof. unfold put. simpl. rewrite insert_insert_eq. reflexivity. Qed.

Lemma deliver_cursor_eq (s : world) (h this : positive) (nw : window) (w : Window)
    (xPos yPos : double) :
  windows (glfw s) !! h = Some nw -> cursorPosCallback nw = true ->
  userPointer nw = Some this -> heap s !! this = Some w ->
  deliver h (CursorPosEvent xPos yPos) s
    = Some (tt, put this (mouse_moved xPos yPos w) s).
Proof.
  intros Hnw Hcb Hu Hw. unfold deliver. rewrite Hnw, Hcb.
  apply handleMouse_resolved; [|exact Hw].
  rewrite (user_pointer_Some _ _ _ Hnw), Hu. reflexivity.
Qed.

Lemma mouse_moved_next (xPos yPos : double) (w : Window) :
  mouseFirstMoved w = false ->
  mouse_moved xPos yPos w =
    set_mouse (GLfloat_of_double xPos) (GLfloat_of_double yPos)
              (fadd (xChange w) (fsub (GLfloat_of_double xPos) (lastX w)))
              (fadd (yChange w) (fsub (GLfloat_of_double yPos) (lastY w)))
              false w.
Proof. intros H. unfold mouse_moved. rewrite H. reflexivity. Qed.

(** After the first movement the accumulators follow [accumulate]. *)
Lemma track_accumulate (moves : list (double * double)) (w : Window) :
  mouseFirstMoved w = false ->
  (xChange (track moves w), lastX (track moves w))
    = accumulate (xChange w) (lastX w) (xs_of moves) /\
  (yChange (track moves w), lastY (track moves w))
    = accumulate (yChange w) (lastY w) (ys_of moves).
Proof.
  revert w. induction moves as [|[x y] moves IH]; intros w Hf.
  - split; reflexivity.
  - change (track ((x, y) :: moves) w) with (track moves (mouse_moved x y w)).
    destruct (IH (mouse_moved x y w)) as [IHx IHy].
    + rewrite (mouse_moved_next x y w Hf). reflexivity.
    + rewrite IHx, IHy, (mouse_moved_next x y w Hf). split; reflexivity.
Qed.

Section Mouse.
Variables default_width default_height : GLint.
Local Abbreviation exec := (exec default_width default_height).
Local Abbreviation run := (run default_width default_height).
Local Abbreviation step := (step default_width default_height).

Lemma run_cursor_events (moves : list (double * double)) (s : world)
    (h this : positive) (nw : window) (w : Window) :
  windows (glfw s) !! h = Some nw -> cursorPosCallback nw = true ->
  userPointer nw = Some this -> heap s !! this = Some w ->
  run (cursor_events h moves) s = Some (put this (track moves w) s).
Proof.
  revert s w. induction moves as [|[x y] moves IH]; intros s w Hnw Hcb Hu Hw.
  - simpl. rewrite (put_same s this w Hw). reflexivity.
  - simpl. unfold fmapM, bind.
    rewrite (deliver_cursor_eq s h this nw w x y Hnw Hcb Hu Hw). simpl.
    rewrite (IH (put this (mouse_moved x y w) s) (mouse_moved x y w) Hnw Hcb Hu)
      by apply lookup_insert_eq.
    rewrite put_put. reflexivity.
Qed.

(** C4: right after a successful [Initialise] of a newly constructed
    object both accumulators read zero.  The first cursor callback only
    records the position: the accumulators still read zero after it,
    whatever the position and whatever the memory of the object held
    before.  Every later callback adds the difference between the new and
    the stored position to the accumulators and stores the new position. *)
Theorem first_cursor_event_is_baseline (a : action) (s s1 s2 : world)
    (this : positive) :
  is_constructor a = true ->
  exec a s = Some (VPtr this, s1) ->
  Initialise this s1 = Some (InitSuccess, s2) ->
  exists h w2,
    heap s2 !! this = Some w2 /\ mainWindow w2 = Some h /\
    getXChange this s2 = Some (fzero, s2) /\
    getYChange this s2 = Some (fzero, s2) /\
    forall xPos yPos,
      exists s3 w3,
        deliver h (CursorPosEvent xPos yPos) s2 = Some (tt, s3) /\
        heap s3 !! this = Some w3 /\
        lastX w3 = GLfloat_of_double xPos /\ lastY w3 = GLfloat_of_double yPos /\
        mouseFirstMoved w3 = false /\
        getXChange this s3 = Some (fzero, s3) /\
        getYChange this s3 = Some (fzero, s3) /\
        forall moves,
          exists s4 w4,
            run (cursor_events h moves) s3 = Some s4 /\
            heap s4 !! this = Some w4 /\
            (xChange w4, lastX w4)
              = accumulate fzero (GLfloat_of_double xPos) (xs_of moves) /\
            (yChange w4, lastY w4)
              = accumulate fzero (GLfloat_of_double yPos) (ys_of moves).
Proof.
  intros Hctor Hnew Hinit.
  assert (Hw1 : exists ww hh junk,
             heap s1 !! this = Some (Window_fields ww hh junk)).
  { destruct a as [ww hh junk|junk|o m|h0 e]; try discriminate Hctor;
      simpl in Hnew; injection Hnew as <- <-; do 3 eexists; apply lookup_insert_eq. }
  destruct Hw1 as (ww & hh & junk & Hw1).
  pose proof (Initialise_success_inv s1 s2 this _ Hw1 Hinit) as [Hc Hs2].
  subst s2. clear Hinit.
  set (h := fresh (dom (windows (glfw s1)))).
  set (w2 := initialised_fields (env (glfw s1)) h (Window_fields ww hh junk)).
  set (nw := initialised_window (env (glfw s1)) this (Window_fields ww hh junk)).
  set (s2 := mk_world (<[this := w2]> (heap s1))
                      (GLFW.mk (env (glfw s1)) (<[h := nw]> (windows (glfw s1)))
                               (Some h))).
  assert (Hw2 : heap s2 !! this = Some w2) by apply lookup_insert_eq.
  assert (Hnw : windows (glfw s2) !! h = Some nw) by apply lookup_insert_eq.
  exists h, w2. split; [exact Hw2|]. split; [reflexivity|].
  split; [rewrite (getXChange_eq s2 this w2 Hw2); f_equal; f_equal;
          apply (put_same s2 this _ Hw2)|].
  split; [rewrite (getYChange_eq s2 this w2 Hw2); f_equal; f_equal;
          apply (put_same s2 this _ Hw2)|].
  intros xPos yPos.
  set (w3 := mouse_moved xPos yPos w2).
  set (s3 := put this w3 s2).
  assert (Hw3 : heap s3 !! this = Some w3) by apply lookup_insert_eq.
  exists s3, w3.
  split; [apply (deliver_cursor_eq s2 h this nw w2 xPos yPos Hnw eq_refl eq_refl Hw2)|].
  split; [exact Hw3|]. split; [reflexivity|]. split; [reflexivity|].
  split; [reflexivity|].
  split; [rewrite (getXChange_eq s3 this w3 Hw3); f_equal; f_equal;
          apply (put_same s3 this _ Hw3)|].
  split; [rewrite (getYChange_eq s3 this w3 Hw3); f_equal; f_equal;
          apply (put_same s3 this _ Hw3)|].
  intros moves.
  exists (put this (track moves w3) s3), (track moves w3).
  split; [apply (run_cursor_events moves s3 h this nw w3 Hnw eq_refl eq_refl Hw3)|].
  split; [apply lookup_insert_eq|].
  apply (track_accumulate moves w3). reflexivity.
Qed.

End Mouse.

(** ** Read-and-clear *)

Lemma set_xChange_same (w : Window) : set_xChange (xChange w) w = w.
Proof. destruct w; reflexivity. Qed.

Lemma set_yChange_same (w : Window) : set_yChange (yChange w) w = w.
Proof. destruct w; reflexivity. Qed.

Section ReadAndClear.
Variables default_width default_height : GLint.
Local Abbreviation exec := (exec default_width default_height).
Local Abbreviation run := (run default_width default_height).
Local Abbreviation step := (step default_width default_height).

Ltac cleared_step Hs :=
  let w' := fresh "w'" in
  let Hw' := fresh "Hw'" in
  intros w' Hw'; simpl in Hw';
  try (apply lookup_insert_cases in Hw' as [[-> ->]|[_ Hw']]);
  try (apply lookup_delete_Some in Hw' as [_ Hw']);
  try (apply (Hs _ Hw'));
  try reflexivity;
  try (simpl; eapply Hs; eassumption).

Lemma step_x_cleared (this : positive) (a : action) (s s' : world) :
  not_cursor_event a -> x_cleared this s -> step a s s' -> x_cleared this s'.
Proof.
  intros Hq Hs Hst. destruct Hst; try exact Hs; try contradiction;
    cleared_step Hs.
Qed.

Lemma step_y_cleared (this : positive) (a : action) (s s' : world) :
  not_cursor_event a -> y_cleared this s -> step a s s' -> y_cleared this s'.
Proof.
  intros Hq Hs Hst. destruct Hst; try exact Hs; try contradiction;
    cleared_step Hs.
Qed.

Lemma run_x_cleared (this : positive) (tr : list action) (s s' : world) :
  Forall not_cursor_event tr -> x_cleared this s -> run tr s = Some s' ->
  x_cleared this s'.
Proof.
  apply (run_invariant_when default_width default_height not_cursor_event
           (x_cleared this)).
  intros a s0 s1. apply step_x_cleared.
Qed.

Lemma run_y_cleared (this : positive) (tr : list action) (s s' : world) :
  Forall not_cursor_event tr -> y_cleared this s -> run tr s = Some s' ->
  y_cleared this s'.
Proof.
  apply (run_invariant_when default_width default_height not_cursor_event
           (y_cleared this)).
  intros a s0 s1. apply step_y_cleared.
Qed.

(** C1: [getXChange] returns the accumulator and sets it to zero, touching
    nothing else; an immediate second call returns zero and leaves the state
    as it is; and so does a later call after any operations among which
    there is no cursor event.  When cursor events do arrive in between (after
    the first movement), the next call returns exactly the delta accumulated
    from zero over those events.  The same holds for [getYChange]. *)
Theorem getChange_read_and_clear (s : world) (this : positive) (w : Window) :
  heap s !! this = Some w ->
  let sx := put this (set_xChange fzero w) s in
  let sy := put this (set_yChange fzero w) s in
  getXChange this s = Some (xChange w, sx) /\
  getXChange this sx = Some (fzero, sx) /\
  (forall tr s2 w2, Forall not_cursor_event tr -> run tr sx = Some s2 ->
     heap s2 !! this = Some w2 -> getXChange this s2 = Some (fzero, s2)) /\
  (forall h nw moves, windows (glfw s) !! h = Some nw ->
     cursorPosCallback nw = true -> userPointer nw = Some this ->
     mouseFirstMoved w = false ->
     exists s2 s3, run (cursor_events h moves) sx = Some s2 /\
       getXChange this s2
         = Some (fst (accumulate fzero (lastX w) (xs_of moves)), s3)) /\
  getYChange this s = Some (yChange w, sy) /\
  getYChange this sy = Some (fzero, sy) /\
  (forall tr s2 w2, Forall not_cursor_event tr -> run tr sy = Some s2 ->
     heap s2 !! this = Some w2 -> getYChange this s2 = Some (fzero, s2)) /\
  (forall h nw moves, windows (glfw s) !! h = Some nw ->
     cursorPosCallback nw = true -> userPointer nw = Some this ->
     mouseFirstMoved w = false ->
     exists s2 s3, run (cursor_events h moves) sy = Some s2 /\
       getYChange this s2
         = Some (fst (accumulate fzero (lastY w) (ys_of moves)), s3)).
Proof.
  intros Hw sx sy.
  assert (Hsx : heap sx !! this = Some (set_xChange fzero w)) by apply lookup_insert_eq.
  assert (Hsy : heap sy !! this = Some (set_yChange fzero w)) by apply lookup_insert_eq.
  assert (Hcx : x_cleared this sx).
  { intros w' Hw'. rewrite Hsx in Hw'. injection Hw' as <-. reflexivity. }
  assert (Hcy : y_cleared this sy).
  { intros w' Hw'. rewrite Hsy in Hw'. injection Hw' as <-. reflexivity. }
  assert (Hzx : forall s2 w2, x_cleared this s2 -> heap s2 !! this = Some w2 ->
                  getXChange this s2 = Some (fzero, s2)).
  { intros s2 w2 Hc Hw2. rewrite (getXChange_eq s2 this w2 Hw2).
    replace (set_xChange fzero w2) with w2
      by (rewrite <- (Hc w2 Hw2); symmetry; apply set_xChange_same).
    rewrite (put_same s2 this w2 Hw2), (Hc w2 Hw2). reflexivity. }
  assert (Hzy : forall s2 w2, y_cleared this s2 -> heap s2 !! this = Some w2 ->
                  getYChange this s2 = Some (fzero, s2)).
  { intros s2 w2 Hc Hw2. rewrite (getYChange_eq s2 this w2 Hw2).
    replace (set_yChange fzero w2) with w2
      by (rewrite <- (Hc w2 Hw2); symmetry; apply set_yChange_same).
    rewrite (put_same s2 this w2 Hw2), (Hc w2 Hw2). reflexivity. }
  split; [apply (getXChange_eq s this w Hw)|].
  split; [apply (Hzx sx _ Hcx Hsx)|].
  split.
  { intros tr s2 w2 Htr Hrun Hw2.
    apply (Hzx s2 w2); [|exact Hw2]. apply (run_x_cleared this tr sx s2 Htr Hcx Hrun). }
  split.
  { intros h nw moves Hnw Hcb Hu Hf.
    exists (put this (track moves (set_xChange fzero w)) sx). eexists.
    split; [apply (run_cursor_events _ _ moves sx h this nw _ Hnw Hcb Hu Hsx)|].
    rewrite (getXChange_eq _ this (track moves (set_xChange fzero w)))
      by apply lookup_insert_eq.
    destruct (track_accumulate moves (set_xChange fzero w) Hf) as [Hx _].
    simpl in Hx. rewrite <- Hx. reflexivity. }
  split; [apply (getYChange_eq s this w Hw)|].
  split; [apply (Hzy sy _ Hcy Hsy)|].
  split.
  { intros tr s2 w2 Htr Hrun Hw2.
    apply (Hzy s2 w2); [|exact Hw2]. apply (run_y_cleared this tr sy s2 Htr Hcy Hrun). }
  intros h nw moves Hnw Hcb Hu Hf.
  exists (put this (track moves (set_yChange fzero w)) sy). eexists.
  split; [apply (run_cursor_events _ _ moves sy h this nw _ Hnw Hcb Hu Hsy)|].
  rewrite (getYChange_eq _ this (track moves (set_yChange fzero w)))
    by apply lookup_insert_eq.
  destruct (track_accumulate moves (set_yChange fzero w) Hf) as [_ Hy].
  simpl in Hy. rewrite <- Hy. reflexivity.
Qed.

End ReadAndClear.

(** ** The step relation is exactly what [exec] does *)

Lemma getKeys_eq (s : world) (this : positive) (w : Window) :
  heap s !! this = Some w -> getKeys this s = Some (this, s).
Proof.
  intros H. unfold getKeys. rewrite (bind_Some _ _ _ _ _ (load_Some _ _ _ H)).
  reflexivity.
Qed.

Lemma SwapBuffers_eq (s : world) (this h : positive) (w : Window) (nw : window) :
  heap s !! this = Some w -> mainWindow w = Some h ->
  windows (glfw s) !! h = Some nw ->
  SwapBuffers this s = Some (tt, put_native h (bump_frames nw) s).
Proof.
  intros H Hh Hnw. unfold SwapBuffers.
  rewrite (bind_Some _ _ _ _ _ (load_Some _ _ _ H)).
  unfold native_do, glfwSwapBuffers, update_ptr, lookup_ptr.
  rewrite Hh, Hnw. reflexivity.
Qed.

Section StepComplete.
Variables default_width default_height : GLint.
Local Abbreviation exec := (exec default_width default_height).
Local Abbreviation step := (step default_width default_height).

Lemma fmapM_Some {A B} (f : A -> B) (m : M A) (s s' : world) (a : A) :
  m s = Some (a, s') -> fmapM f m s = Some (f a, s').
Proof. intros H. unfold fmapM. rewrite (bind_Some _ _ _ _ _ H). reflexivity. Qed.

Lemma step_exec (a : action) (s s' : world) :
  step a s s' -> exists v, exec a s = Some (v, s').
Proof.
  intros Hst. destruct Hst; simpl.
  - eexists. reflexivity.
  - eexists. reflexivity.
  - eexists. eapply fmapM_Some. apply Initialise_failure_eq; assumption.
  - eexists. eapply fmapM_Some. apply Initialise_success_eq; assumption.
  - destruct m; try discriminate; eexists; eapply fmapM_Some.
    + eapply getBufferWidth_eq; eassumption.
    + eapply getBufferHeight_eq; eassumption.
    + eapply getKeys_eq; eassumption.
  - eexists. eapply fmapM_Some. eapply getShouldClose_eq; eassumption.
  - eexists. eapply (fmapM_Some (fun _ => VUnit)). eapply SwapBuffers_eq; eassumption.
  - eexists. eapply fmapM_Some. apply getXChange_eq; assumption.
  - eexists. eapply fmapM_Some. apply getYChange_eq; assumption.
  - eexists. eapply (fmapM_Some (fun _ => VUnit)).
    erewrite Window_delete_eq by eassumption.
    match goal with Hm : mainWindow _ = None |- _ => rewrite Hm end. reflexivity.
  - eexists. eapply (fmapM_Some (fun _ => VUnit)).
    erewrite Window_delete_eq by eassumption.
    match goal with Hm : mainWindow _ = Some _ |- _ => rewrite Hm end.
    unfold glfwDestroyWindow.
    match goal with Hn : windows _ !! _ = Some _ |- _ => rewrite Hn end.
    reflexivity.
  - eexists. eapply (fmapM_Some (fun _ => VUnit)). unfold deliver.
    match goal with Hn : windows _ !! _ = None |- _ => rewrite Hn end.
    reflexivity.
  - eexists. eapply (fmapM_Some (fun _ => VUnit)). unfold deliver.
    match goal with Hn : windows _ !! _ = Some _ |- _ => rewrite Hn end.
    destruct e; simpl in *;
      match goal with Hc : _ = false |- _ => rewrite Hc || discriminate Hc end;
      reflexivity.
  - eexists. eapply (fmapM_Some (fun _ => VUnit)). unfold deliver.
    match goal with Hn : windows _ !! _ = Some _ |- _ => rewrite Hn end.
    match goal with Hc : keyCallback _ = true |- _ => rewrite Hc end.
    erewrite handleKeys_resolved; [| |eassumption].
    + destruct (decide (0 <= key < KEYS_CAPACITY)) as [Hk|Hk]; [|reflexivity].
      match goal with Hd : _ \/ _ |- _ => destruct Hd as [Hd|[Hp Hr]] end;
        [contradiction|].
      apply Z.eqb_neq in Hp, Hr. rewrite Hp, Hr. reflexivity.
    + erewrite user_pointer_Some by eassumption. f_equal. assumption.
  - eexists. eapply (fmapM_Some (fun _ => VUnit)). unfold deliver.
    match goal with Hn : windows _ !! _ = Some _ |- _ => rewrite Hn end.
    match goal with Hc : keyCallback _ = true |- _ => rewrite Hc end.
    erewrite handleKeys_resolved; [| |eassumption].
    + destruct (decide (0 <= key < KEYS_CAPACITY)) as [Hk|Hk]; [|contradiction].
      match goal with Hd : _ \/ _ |- _ => destruct Hd as [->| ->] end;
        match goal with Hs : array_store _ _ _ = Some _ |- _ =>
          simpl in Hs; simpl; rewrite Hs end;
        eapply store_Some; eassumption.
    + erewrite user_pointer_Some by eassumption. f_equal. assumption.
  - eexists. eapply (fmapM_Some (fun _ => VUnit)).
    eapply deliver_cursor_eq; eassumption.
  - eexists. eapply (fmapM_Some (fun _ => VUnit)). unfold deliver, close_request.
    match goal with Hn : windows _ !! _ = Some _ |- _ => rewrite Hn end.
    reflexivity.
Qed.

(** A step of the relation is a successful [exec], and conversely. *)
Lemma step_iff_exec (a : action) (s s' : world) :
  step a s s' <-> exists v, exec a s = Some (v, s').
Proof.
  split; [apply step_exec|].
  intros [v H]. apply (exec_step _ _ _ _ _ _ H).
Qed.

End StepComplete.

(** ** Safety of the polling loop

    On an object that holds a window, in a reachable state, the destructor
    and the delivery of a key event to that window run without fault. *)

Section Safety.
Variables default_width default_height : GLint.
Local Abbreviation reachable := (reachable default_width default_height).

Lemma Window_delete_safe (s : world) (this : positive) (w : Window) :
  reachable s -> heap s !! this = Some w ->
  exists s', Window_delete this s = Some (tt, s') /\ heap s' !! this = None.
Proof.
  intros Hr Hw. rewrite (Window_delete_eq s this w Hw).
  destruct (mainWindow w) as [h|] eqn:Hh.
  - destruct (reachable_owned _ _ s Hr this w h Hw Hh) as (nw & Hnw & _).
    unfold glfwDestroyWindow. rewrite Hnw. eexists. split; [reflexivity|].
    apply lookup_delete_eq.
  - eexists. split; [reflexivity|]. apply lookup_delete_eq.
Qed.

Lemma deliver_key_safe (s : world) (this h : positive) (w : Window)
    (key code action mode : Z) :
  reachable s -> heap s !! this = Some w -> mainWindow w = Some h ->
  exists s', deliver h (KeyEvent key code action mode) s = Some (tt, s').
Proof.
  intros Hr Hw Hh.
  destruct (reachable_owned _ _ s Hr this w h Hw Hh) as (nw & Hnw & Hu).
  pose proof (reachable_keys_ok _ _ s Hr this w Hw) as Hlen.
  unfold deliver. rewrite Hnw. destruct (keyCallback nw); [|eauto].
  rewrite (handleKeys_resolved s (Some h) this w);
    [|rewrite (user_pointer_Some _ _ _ Hnw), Hu; reflexivity|exact Hw].
  destruct (decide (0 <= key < KEYS_CAPACITY)) as [Hk|Hk]; [|eauto].
  destruct (action =? GLFW_PRESS).
  - destruct (proj2 (array_store_Some_iff (keys w) key true)) as [ks Hks]; [lia|].
    rewrite Hks, (store_Some _ _ _ _ Hw). eauto.
  - destruct (action =? GLFW_RELEASE); [|eauto].
    destruct (proj2 (array_store_Some_iff (keys w) key false)) as [ks Hks]; [lia|].
    rewrite Hks, (store_Some _ _ _ _ Hw). eauto.
Qed.

End Safety.

(** ** The theorems at sample states *)

Lemma getChange_read_and_clear_witness :
  getXChange 1%positive (dragged hidpi_host)
    = Some (GLfloat_of_GLint 3,
            put 1%positive
                (set_xChange fzero
                   (track [(double_of_Z 100, double_of_Z 50);
                           (double_of_Z 103, double_of_Z 40)]
                      (initialised_fields hidpi_host 1%positive
                         (Window_fields 800 600 sample_junk))))
                (dragged hidpi_host)).
Proof.
  exact (proj1 (getChange_read_and_clear 800 600 (dragged hidpi_host) 1%positive
                  _ eq_refl)).
Defined.

Lemma getBuffer_float_of_stored_int_witness :
  getBufferWidth 1%positive (initialised hidpi_host)
    = Some (GLfloat_of_GLint 1600, initialised hidpi_host).
Proof.
  exact (proj1 (getBuffer_float_of_stored_int (initialised hidpi_host) 1%positive
                  _ eq_refl)).
Defined.

Lemma handleKeys_out_of_range_dropped_witness :
  handleKeys (Some 1%positive) (-1) 0 GLFW_PRESS 0 (initialised hidpi_host)
    = Some (tt, initialised hidpi_host) /\
  deliver 1%positive (KeyEvent (-1) 0 GLFW_PRESS 0) (initialised hidpi_host)
    = Some (tt, initialised hidpi_host).
Proof.
  apply (handleKeys_out_of_range_dropped (initialised hidpi_host) 1%positive
           1%positive _ _ (-1) 0 GLFW_PRESS 0 eq_refl eq_refl eq_refl).
  unfold KEYS_CAPACITY. lia.
Defined.

Lemma handleKeys_press_then_release_witness :
  exists s1 w1 s2 w2,
    handleKeys (Some 1%positive) 65 38 GLFW_PRESS 0 (initialised hidpi_host)
      = Some (tt, s1) /\
    heap s1 !! 1%positive = Some w1 /\
    array_load (keys w1) 65 = Some true /\
    (forall j, j <> 65 ->
       array_load (keys w1) j
         = array_load (keys (initialised_fields hidpi_host 1%positive
                               (Window_fields 800 600 sample_junk))) j) /\
    handleKeys (Some 1%positive) 65 38 GLFW_RELEASE 0 s1 = Some (tt, s2) /\
    heap s2 !! 1%positive = Some w2 /\
    array_load (keys w2) 65 = Some false /\
    (forall j, j <> 65 ->
       array_load (keys w2) j
         = array_load (keys (initialised_fields hidpi_host 1%positive
                               (Window_fields 800 600 sample_junk))) j).
Proof.
  apply (handleKeys_press_then_release (initialised hidpi_host) 1%positive
           1%positive _ _ 65 38 0 38 0 eq_refl eq_refl eq_refl).
  - reflexivity.
  - unfold KEYS_CAPACITY. lia.
Defined.

Lemma first_cursor_event_is_baseline_witness :
  exists h w2,
    heap (initialised hidpi_host) !! 1%positive = Some w2 /\
    mainWindow w2 = Some h /\
    getXChange 1%positive (initialised hidpi_host)
      = Some (fzero, initialised hidpi_host) /\
    getYChange 1%positive (initialised hidpi_host)
      = Some (fzero, initialised hidpi_host) /\
    forall xPos yPos,
      exists s3 w3,
        deliver h (CursorPosEvent xPos yPos) (initialised hidpi_host)
          = Some (tt, s3) /\
        heap s3 !! 1%positive = Some w3 /\
        lastX w3 = GLfloat_of_double xPos /\ lastY w3 = GLfloat_of_double yPos /\
        mouseFirstMoved w3 = false /\
        getXChange 1%positive s3 = Some (fzero, s3) /\
        getYChange 1%positive s3 = Some (fzero, s3) /\
        forall moves,
          exists s4 w4,
            run 800 600 (cursor_events h moves) s3 = Some s4 /\
            heap s4 !! 1%positive = Some w4 /\
            (xChange w4, lastX w4)
              = accumulate fzero (GLfloat_of_double xPos) (xs_of moves) /\
            (yChange w4, lastY w4)
              = accumulate fzero (GLfloat_of_double yPos) (ys_of moves).
Proof.
  apply (first_cursor_event_is_baseline 800 600 (New 800 600 sample_junk)
           (start hidpi_host) (constructed hidpi_host) (initialised hidpi_host)
           1%positive eq_refl eq_refl (initialised_eq hidpi_host eq_refl)).
Defined.

Lemma Initialise_failure_leaves_no_handle_witness :
  exists s1,
    Initialise 1%positive (constructed headless_host) = Some (InitFailure, s1) /\
    glfw s1 = glfw (constructed headless_host) /\
    Window_delete 1%positive s1 = Some (tt, start headless_host).
Proof.
  destruct (Initialise_failure_leaves_no_handle (constructed headless_host)
              1%positive _ eq_refl eq_refl)
    as (s1 & w1 & Hinit & Hglfw & _ & _ & _ & Hdel & _).
  exists s1. split; [exact Hinit|]. split; [exact Hglfw|exact Hdel].
Defined.

Lemma getBuffer_after_Initialise_witness :
  getBufferWidth 1%positive (initialised hidpi_host)
    = Some (GLfloat_of_GLint 1600, initialised hidpi_host) /\
  GLfloat_to_Z (GLfloat_of_GLint 1600) = Some 1600.
Proof.
  destruct (getBuffer_after_Initialise (constructed hidpi_host)
              (initialised hidpi_host) 1%positive _ eq_refl
              (initialised_eq hidpi_host eq_refl))
    as (w1 & fb & _ & _ & -> & Hw & _ & Hx & _).
  split; [exact Hw|]. apply Hx. simpl. lia.
Defined.

Lemma getShouldClose_reports_close_request_witness :
  getShouldClose 1%positive (initialised hidpi_host)
    = Some (false, initialised hidpi_host).
Proof.
  destruct (getShouldClose_reports_close_request 800 600 (initialised hidpi_host)
              1%positive _ (initialised_reachable hidpi_host eq_refl) eq_refl)
    as [_ H].
  destruct (H 1%positive eq_refl) as (nw & s2 & Hnw & Hget & _).
  injection Hnw as <-. exact Hget.
Defined.

Lemma keys_capacity_is_1024_witness :
  Z.of_nat (length (keys (initialised_fields hidpi_host 1%positive
                            (Window_fields 800 600 sample_junk)))) = 1024.
Proof.
  exact (proj1 (proj2 (keys_capacity_is_1024 800 600 (initialised hidpi_host)
                         1%positive _ (initialised_reachable hidpi_host eq_refl)
                         eq_refl))).
Defined.

(** A repeated key is neither a press nor a release: the flags stay. *)
Lemma handleKeys_repeat_ignored :
  deliver 1%positive (KeyEvent 65 38 GLFW_REPEAT 0) (initialised hidpi_host)
    = Some (tt, initialised hidpi_host).
Proof. reflexivity. Qed.

(** The five methods defined in the header do run on an initialised
    object. *)
Lemma read_only_methods_run :
  getShouldClose 1%positive (initialised hidpi_host)
    = Some (false, initialised hidpi_host) /\
  getBufferWidth 1%positive (initialised hidpi_host)
    = Some (GLfloat_of_GLint 1600, initialised hidpi_host) /\
  getBufferHeight 1%positive (initialised hidpi_host)
    = Some (GLfloat_of_GLint 1200, initialised hidpi_host) /\
  getKeys 1%positive (initialised hidpi_host)
    = Some (1%positive, initialised hidpi_host) /\
  exists s', SwapBuffers 1%positive (initialised hidpi_host) = Some (tt, s') /\
             heap s' = heap (initialised hidpi_host).
Proof.
  repeat split. eexists. split; reflexivity.
Qed.

(** * Further properties *)

(** ** The conversion from [GLint] to [GLfloat] beyond 24 bits *)











Lemma round_nearest_even_cases (q : Z) (l : location) :
  round_nearest_even q l = q \/ round_nearest_even q l = q + 1.
Proof.
  destruct l as [|[| |]]; simpl; auto. destruct (Z.even q); auto.
Qed.







(** ** Where the accessors are defined *)



(** ** A render loop without events *)

Lemma add_frames_0 (nw : window) : add_frames 0 nw = nw.
Proof. destruct nw. unfold add_frames. simpl. rewrite N.add_0_r. reflexivity. Qed.

Lemma add_frames_bump (k : N) (nw : window) :
  add_frames k (bump_frames nw) = add_frames (N.succ k) nw.
Proof. unfold add_frames, bump_frames. simpl. f_equal. lia. Qed.

Section Polling.
Variables default_width default_height : GLint.
Local Abbreviation exec := (exec default_width default_height).
Local Abbreviation run := (run default_width default_height).

(** X3: any sequence of calls of the five methods defined in the header, in
    any order and of any length, on an object whose handle is live: every
    call succeeds, no [Window] object changes, and in the library only the
    object's own native window changes, by exactly as many buffer swaps as
    the sequence has [SwapBuffers] calls; in particular [getShouldClose]
    returns afterwards what it returned before. *)
Theorem polling_trace_idle (tr : list action) (s : world) (this h : positive)
    (w : Window) (nw : window) :
  heap s !! this = Some w -> mainWindow w = Some h ->
  windows (glfw s) !! h = Some nw ->
  Forall (polling this) tr ->
  exists s',
    run tr s = Some s' /\
    heap s' = heap s /\
    env (glfw s') = env (glfw s) /\ current (glfw s') = current (glfw s) /\
    windows (glfw s') = <[h := add_frames (count_swaps tr) nw]> (windows (glfw s)) /\
    getShouldClose this s' = Some (bool_of_int (shouldClose nw), s') /\
    getShouldClose this s = Some (bool_of_int (shouldClose nw), s).
Proof.
  intros Hw Hh Hnw Htr. revert s nw Hw Hnw.
  induction Htr as [|a tr Ha Htr IH]; intros s nw Hw Hnw.
  - exists s. simpl. rewrite add_frames_0, insert_id by exact Hnw.
    pose proof (getShouldClose_eq s this h w nw Hw Hh Hnw) as Hg. auto 10.
  - pose proof (getShouldClose_eq s this h w nw Hw Hh Hnw) as Hg.
    destruct Ha as (m & -> & Hm).
    assert (Hsame : forall v, exec (Call this m) s = Some (v, s) ->
              count_swaps (Call this m :: tr) = count_swaps tr ->
              exists s', run (Call this m :: tr) s = Some s' /\
                heap s' = heap s /\ env (glfw s') = env (glfw s) /\
                current (glfw s') = current (glfw s) /\
                windows (glfw s')
                  = <[h := add_frames (count_swaps (Call this m :: tr)) nw]>
                      (windows (glfw s)) /\
                getShouldClose this s' = Some (bool_of_int (shouldClose nw), s') /\
                getShouldClose this s = Some (bool_of_int (shouldClose nw), s)).
    { intros v He Hc. destruct (IH s nw Hw Hnw) as (s' & Hrun & Hrest).
      exists s'. simpl run. simpl in He. rewrite He, Hc. auto. }
    destruct m; try discriminate Hm.
    + apply (Hsame (VFloat (GLfloat_of_GLint (bufferWidth w)))); [|reflexivity].
      simpl. apply fmapM_Some. apply (getBufferWidth_eq s this w Hw).
    + apply (Hsame (VFloat (GLfloat_of_GLint (bufferHeight w)))); [|reflexivity].
      simpl. apply fmapM_Some. apply (getBufferHeight_eq s this w Hw).
    + apply (Hsame (VBool (bool_of_int (shouldClose nw)))); [|reflexivity].
      simpl. apply fmapM_Some. exact Hg.
    + apply (Hsame (VPtr this)); [|reflexivity].
      simpl. apply fmapM_Some. apply (getKeys_eq s this w Hw).
    + clear Hsame.
      destruct (IH (put_native h (bump_frames nw) s) (bump_frames nw) Hw)
        as (s' & Hrun & Hheap & Henv & Hcur & Hwin & Hg' & _);
        [apply lookup_insert_eq|].
      exists s'. simpl run. unfold fmapM, bind.
      rewrite (SwapBuffers_eq s this h w nw Hw Hh Hnw). simpl.
      split; [exact Hrun|]. split; [exact Hheap|]. split; [exact Henv|].
      split; [exact Hcur|]. split; [|split; [exact Hg'|exact Hg]].
      rewrite Hwin. simpl. rewrite insert_insert_eq, add_frames_bump. reflexivity.
Qed.

End Polling.

(** ** Fields that stay *)

Lemma same_window_refl (w : Window) : same_window w w.
Proof. repeat split. Qed.

Section Frozen.
Variables default_width default_height : GLint.
Local Abbreviation run := (run default_width default_height).
Local Abbreviation step := (step default_width default_height).

Lemma step_same_window (this : positive) (w : Window) (a : action) (s s' : world) :
  keeps_window this a ->
  (exists w0, heap s !! this = Some w0 /\ same_window w w0) ->
  step a s s' ->
  exists w', heap s' !! this = Some w' /\ same_window w w'.
Proof.
  intros [Hni Hnd] (w0 & Hw0 & Hsame) Hst.
  assert (Hfresh : fresh (dom (heap s)) <> this).
  { intros Heq. apply (is_fresh (dom (heap s))). rewrite Heq.
    apply elem_of_dom. rewrite Hw0. eauto. }
  assert (Hput : forall o w1 w2, heap s !! o = Some w1 -> same_window w1 w2 ->
            exists w', heap (put o w2 s) !! this = Some w' /\ same_window w w').
  { intros o w1 w2 Ho H12. simpl. destruct (decide (o = this)) as [->|Hne].
    - rewrite lookup_insert_eq. exists w2. split; [reflexivity|].
      rewrite Hw0 in Ho. injection Ho as <-.
      destruct Hsame as (? & ? & ? & ? & ?), H12 as (? & ? & ? & ? & ?).
      repeat split; congruence.
    - rewrite lookup_insert_ne by exact Hne. eauto. }
  destruct Hst;
    try (exists w0; split; [exact Hw0|exact Hsame]);
    try (eapply Hput; [eassumption|repeat split]; fail).
  - exists w0. simpl. rewrite lookup_insert_ne by exact Hfresh. auto.
  - exists w0. simpl. rewrite lookup_insert_ne by exact Hfresh. auto.
  - exists w0. simpl. rewrite lookup_insert_ne by congruence. auto.
  - exists w0. simpl. rewrite lookup_insert_ne by congruence. auto.
  - exists w0. simpl. rewrite lookup_delete_ne by congruence. auto.
  - exists w0. simpl. rewrite lookup_delete_ne by congruence. auto.
  - eapply Hput; [eassumption|].
    unfold mouse_moved. destruct (mouseFirstMoved _); repeat split.
Qed.

(** X4: the handle, the requested dimensions and the stored framebuffer
    size of a live object never change as long as the object is neither
    initialised again nor destroyed: not by key or cursor callbacks, close
    requests, the accessors, or anything done to other objects.  So
    [getBufferWidth] and [getBufferHeight] keep returning the size stored by
    [Initialise]. *)
Theorem buffer_size_frozen (this : positive) (tr : list action) (s s' : world)
    (w : Window) :
  heap s !! this = Some w ->
  Forall (keeps_window this) tr ->
  run tr s = Some s' ->
  exists w',
    heap s' !! this = Some w' /\ same_window w w' /\
    getBufferWidth this s' = Some (GLfloat_of_GLint (bufferWidth w), s') /\
    getBufferHeight this s' = Some (GLfloat_of_GLint (bufferHeight w), s').
Proof.
  intros Hw Htr Hrun.
  assert (H : exists w', heap s' !! this = Some w' /\ same_window w w').
  { refine (run_invariant_when default_width default_height (keeps_window this)
              (fun s0 => exists w0, heap s0 !! this = Some w0 /\ same_window w w0)
              _ tr s s' Htr _ Hrun).
    - intros a s0 s1 Ha HP Hst. apply (step_same_window this w a s0 s1 Ha HP Hst).
    - exists w. split; [exact Hw|apply same_window_refl]. }
  destruct H as (w' & Hw' & Hsame). exists w'.
  split; [exact Hw'|]. split; [exact Hsame|].
  destruct Hsame as (_ & _ & _ & Hbw & Hbh).
  rewrite (getBufferWidth_eq s' this w' Hw'), (getBufferHeight_eq s' this w' Hw').
  rewrite Hbw, Hbh. auto.
Qed.

End Frozen.

(** ** Copies *)

Lemma dead_handle_faults (s : world) (o h : positive) (w : Window) :
  heap s !! o = Some w -> mainWindow w = Some h ->
  windows (glfw s) !! h = None ->
  getShouldClose o s = None /\ SwapBuffers o s = None /\ Window_delete o s = None.
Proof.
  intros Hw Hh Hnone. split; [|split].
  - unfold getShouldClose. rewrite (bind_Some _ _ _ _ _ (load_Some _ _ _ Hw)).
    unfold bind, native_get, glfwWindowShouldClose, lookup_ptr.
    rewrite Hh, Hnone. reflexivity.
  - unfold SwapBuffers. rewrite (bind_Some _ _ _ _ _ (load_Some _ _ _ Hw)).
    unfold native_do, glfwSwapBuffers, update_ptr, lookup_ptr.
    rewrite Hh, Hnone. reflexivity.
  - rewrite (Window_delete_eq s o w Hw). unfold glfwDestroyWindow.
    rewrite Hh, Hnone. reflexivity.
Qed.

Lemma Window_delete_live (s : world) (o h : positive) (w : Window) (nw : window) :
  heap s !! o = Some w -> mainWindow w = Some h ->
  windows (glfw s) !! h = Some nw ->
  Window_delete o s =
    Some (tt, mk_world (delete o (heap s))
                (GLFW.mk (env (glfw s)) (delete h (windows (glfw s)))
                   (if decide (current (glfw s) = Some h) then None
                    else current (glfw s)))).
Proof.
  intros Hw Hh Hnw. rewrite (Window_delete_eq s o w Hw). unfold glfwDestroyWindow.
  rewrite Hh, Hnw. reflexivity.
Qed.

(** X5: the implicit copy constructor copies the handle, so a copy and its
    original name the same native window: [getShouldClose] gives the same
    answer on both.  Once either of the two has been destroyed (the
    destructor releasing the handle), the handle of the other is dead:
    [getShouldClose] and [SwapBuffers] on it are undefined and its own
    destructor faults. *)
Theorem copy_shares_native_window (s : world) (this h : positive) (w : Window)
    (nw : window) :
  heap s !! this = Some w -> mainWindow w = Some h ->
  windows (glfw s) !! h = Some nw ->
  exists c s1,
    Window_copy this s = Some (c, s1) /\ c <> this /\
    heap s1 !! c = Some w /\ heap s1 !! this = Some w /\ glfw s1 = glfw s /\
    getShouldClose c s1 = Some (bool_of_int (shouldClose nw), s1) /\
    getShouldClose this s1 = Some (bool_of_int (shouldClose nw), s1) /\
    (exists s2, Window_delete c s1 = Some (tt, s2) /\
       heap s2 !! this = Some w /\
       getShouldClose this s2 = None /\ SwapBuffers this s2 = None /\
       Window_delete this s2 = None) /\
    (exists s2, Window_delete this s1 = Some (tt, s2) /\
       heap s2 !! c = Some w /\
       getShouldClose c s2 = None /\ SwapBuffers c s2 = None /\
       Window_delete c s2 = None).
Proof.
  intros Hw Hh Hnw.
  set (c := fresh (dom (heap s))).
  assert (Hc : c <> this).
  { intros Heq. apply (is_fresh (dom (heap s))). fold c. rewrite Heq.
    apply elem_of_dom. rewrite Hw. eauto. }
  set (s1 := put c w s).
  assert (Hwc : heap s1 !! c = Some w) by apply lookup_insert_eq.
  assert (Hwt : heap s1 !! this = Some w)
    by (simpl; rewrite lookup_insert_ne by exact Hc; exact Hw).
  exists c, s1.
  split; [unfold Window_copy; rewrite (bind_Some _ _ _ _ _ (load_Some _ _ _ Hw));
          reflexivity|].
  split; [exact Hc|]. split; [exact Hwc|]. split; [exact Hwt|].
  split; [reflexivity|].
  split; [apply (getShouldClose_eq s1 c h w nw Hwc Hh Hnw)|].
  split; [apply (getShouldClose_eq s1 this h w nw Hwt Hh Hnw)|].
  set (g2 := GLFW.mk (env (glfw s1)) (delete h (windows (glfw s1)))
                     (if decide (current (glfw s1) = Some h) then None
                      else current (glfw s1))).
  split.
  - exists (mk_world (delete c (heap s1)) g2).
    split; [apply (Window_delete_live s1 c h w nw Hwc Hh Hnw)|].
    assert (Hw2 : heap (mk_world (delete c (heap s1)) g2) !! this = Some w)
      by (simpl; rewrite lookup_delete_ne by exact Hc; exact Hwt).
    split; [exact Hw2|].
    apply (dead_handle_faults _ this h w Hw2 Hh). apply lookup_delete_eq.
  - exists (mk_world (delete this (heap s1)) g2).
    split; [apply (Window_delete_live s1 this h w nw Hwt Hh Hnw)|].
    assert (Hw2 : heap (mk_world (delete this (heap s1)) g2) !! c = Some w)
      by (simpl; rewrite lookup_delete_ne by congruence; exact Hwc).
    split; [exact Hw2|].
    apply (dead_handle_faults _ c h w Hw2 Hh). apply lookup_delete_eq.
Qed.

(** ** The further properties at sample states *)


Lemma polling_trace_idle_witness :
  exists s',
    run 800 600 sample_polling (initialised hidpi_host) = Some s' /\
    heap s' = heap (initialised hidpi_host) /\
    getShouldClose 1%positive s' = Some (false, s').
Proof.
  destruct (polling_trace_idle 800 600 sample_polling (initialised hidpi_host)
              1%positive 1%positive _ _ eq_refl eq_refl eq_refl)
    as (s' & Hrun & Hheap & _ & _ & _ & Hg & _).
  - unfold sample_polling.
    repeat (constructor; [eexists; split; reflexivity|]). constructor.
  - exists s'. split; [exact Hrun|]. split; [exact Hheap|exact Hg].
Defined.

Lemma buffer_size_frozen_witness :
  exists s',
    run 800 600 sample_session (initialised hidpi_host) = Some s' /\
    getBufferWidth 1%positive s' = Some (GLfloat_of_GLint 1600, s') /\
    getBufferHeight 1%positive s' = Some (GLfloat_of_GLint 1200, s').
Proof.
  assert (Hrun : exists s', run 800 600 sample_session (initialised hidpi_host) = Some s')
    by (vm_compute; eexists; reflexivity).
  destruct Hrun as [s' Hrun].
  destruct (buffer_size_frozen 800 600 1%positive sample_session
              (initialised hidpi_host) s' _ eq_refl)
    as (w' & _ & _ & Hbw & Hbh).
  - unfold sample_session. repeat (constructor; [split; discriminate|]). constructor.
  - exact Hrun.
  - exists s'. split; [exact Hrun|]. split; [exact Hbw|exact Hbh].
Defined.

Lemma copy_shares_native_window_witness :
  exists c s1 s2,
    Window_copy 1%positive (initialised hidpi_host) = Some (c, s1) /\
    Window_delete c s1 = Some (tt, s2) /\
    getShouldClose 1%positive s2 = None /\
    Window_delete 1%positive s2 = None.
Proof.
  destruct (copy_shares_native_window (initialised hidpi_host) 1%positive
              1%positive _ _ eq_refl eq_refl eq_refl)
    as (c & s1 & Hcopy & _ & _ & _ & _ & _ & _ & (s2 & Hdel & _ & Hg & _ & Hd) & _).
  exists c, s1, s2. auto.
Defined.
